(** * Market-basket analysis: the brute-force association miner

    A shallow embedding of [generate_itemsets] and [brute_force_association]
    of [Mohammed_Sameer_Khan_Midterm_Project.py], and the properties of the
    frequent-itemset table and of the rule table they return.

    The engine is written once over an interface of the float operations it
    uses, and run at two instances: IEEE-754 binary64 (what Python and pandas
    compute with) and exact rationals. *)

From Stdlib Require Import List Bool Arith ZArith QArith Qfield Lia.
From Stdlib Require Import Ascii String SetoidList Permutation.
From Stdlib Require Import Floats.
Import ListNotations.

Close Scope Q_scope.
Set Implicit Arguments.

(** ** Numbers *)

(** The operations the engine performs on Python floats and float64 columns:
    conversion of an [int], true division, multiplication, [>=] (through
    [fle], with the arguments swapped) and the test for a zero divisor that
    Python's float division makes before it divides. *)
Class Arith : Type := {
  num : Type;
  of_int : Z -> num;
  fdiv : num -> num -> num;
  fmul : num -> num -> num;
  fle : num -> num -> bool;
  fzero : num -> bool
}.

(** IEEE-754 binary64, round to nearest even: Python's [float] and numpy's
    [float64].  [of_int] is the conversion of a non-negative [int] below
    2^63, exact below 2^53. *)
Definition binary64 : Arith := {|
  num := float;
  of_int := fun z => PrimFloat.of_uint63 (Uint63.of_Z z);
  fdiv := PrimFloat.div;
  fmul := PrimFloat.mul;
  fle := PrimFloat.leb;
  fzero := fun x => PrimFloat.eqb x PrimFloat.zero
|}.

(** Exact rational arithmetic: the engine with no rounding. *)
Definition exact : Arith := {|
  num := Q;
  of_int := inject_Z;
  fdiv := Qdiv;
  fmul := Qmult;
  fle := Qle_bool;
  fzero := fun x => Qeq_bool x 0
|}.

(** What the monotonicity of the engine in its thresholds needs of the
    arithmetic: [<=] is transitive.  It is proved below for binary64, from
    the specification of the primitive floats, and for the exact instance. *)
Class LeTransitive (F : Arith) : Prop := {
  fle_trans : forall x y z : num,
    fle x y = true -> fle y z = true -> fle x z = true
}.

(** ** Item tokens and itemsets *)

(** An item token is a Python [str]. *)
Definition item := string.

(** The value of the [Itemsets] column: a plain [str] for a single item (the
    index of [value_counts]), a [tuple] of [str] for a larger itemset. *)
Inductive itemset : Type :=
| Str (s : item)
| Tup (l : list item).

Arguments Str s%_string.

Definition list_eqb (l1 l2 : list item) : bool :=
  if list_eq_dec string_dec l1 l2 then true else false.

(** Python's [==] on these values: a [str] never equals a [tuple]. *)
Definition itemset_eqb (a b : itemset) : bool :=
  match a, b with
  | Str s, Str t => String.eqb s t
  | Tup l, Tup m => list_eqb l m
  | _, _ => false
  end.

(** The characters of a string, each as a one-character string: what
    iterating a Python [str] yields. *)
Fixpoint chars (s : string) : list item :=
  match s with
  | EmptyString => []
  | String c s' => String c EmptyString :: chars s'
  end.

(** [set(x)], as the list of its elements: the characters of a [str], the
    components of a [tuple]. *)
Definition pyset (x : itemset) : list item :=
  match x with
  | Str s => chars s
  | Tup l => l
  end.

(** The item tokens an itemset stands for. *)
Definition tokens (x : itemset) : list item :=
  match x with
  | Str s => [s]
  | Tup l => l
  end.

Definition mem (x : item) (l : list item) : bool :=
  existsb (String.eqb x) l.

(** [set(a).issubset(set(b))] on the elements of the two sets. *)
Definition issubset (a b : list item) : bool :=
  forallb (fun x => mem x b) a.

(** Equality of two itemsets as sets of elements. *)
Definition same_set (a b : list item) : bool :=
  issubset a b && issubset b a.

(** ** [generate_itemsets] *)

(** The loop of [generate_itemsets]: [subsets] starts as [[[]]] and each item
    extends it with a copy of every subset so far, the item appended. *)
Definition extend_subsets (A : Type) (subsets : list (list A)) (x : A)
  : list (list A) :=
  subsets ++ map (fun subset => subset ++ [x]) subsets.

Definition all_subsets (A : Type) (items : list A) : list (list A) :=
  fold_left (@extend_subsets A) items [[]].

(** [subsets[1:]] *)
Definition generate_itemsets (A : Type) (items : list A) : list (list A) :=
  tl (all_subsets items).

(** ** Python dictionaries, in insertion order *)

(** [d[k] = v]: an existing key keeps its place and takes the new value, a
    new key is appended. *)
Fixpoint dict_set (K V : Type) (eqb : K -> K -> bool)
  (d : list (K * V)) (k : K) (v : V) : list (K * V) :=
  match d with
  | [] => [(k, v)]
  | (k', v') :: d' =>
      if eqb k' k then (k', v) :: d' else (k', v') :: dict_set eqb d' k v
  end.

(** [dict(pairs)] *)
Definition dict_of (K V : Type) (eqb : K -> K -> bool)
  (pairs : list (K * V)) : list (K * V) :=
  fold_left (fun d kv => dict_set eqb d (fst kv) (snd kv)) pairs [].

(** ** [value_counts] *)

(** The distinct values of a list, in the order they are first seen. *)
Fixpoint distinct (l : list item) : list item :=
  match l with
  | [] => []
  | x :: t => x :: filter (fun y => negb (String.eqb y x)) (distinct t)
  end.

Definition occurrences (x : item) (l : list item) : nat :=
  count_occ string_dec l x.

(** Insertion into a list sorted by decreasing count, before the first entry
    whose count is not larger. *)
Fixpoint insert_by_count (e : item * nat) (l : list (item * nat))
  : list (item * nat) :=
  match l with
  | [] => [e]
  | e' :: l' =>
      if snd e <? snd e' then e' :: insert_by_count e l' else e :: l
  end.

(** [pd.Series(l).value_counts()]: each distinct value with the number of
    times it occurs, by decreasing count; values with the same count stay
    in the order they were first seen. *)
Definition value_counts (l : list item) : list (item * nat) :=
  fold_right insert_by_count []
    (map (fun x => (x, occurrences x l)) (distinct l)).

(** ** Errors *)

(** The exception [brute_force_association] can raise: Python's float
    division by a zero divisor. *)
Inductive exn : Type :=
| ZeroDivisionError.

(** A loop [for x in xs: body] over a state, stopped by the first error. *)
Fixpoint for_each (A S : Type) (xs : list A) (body : A -> S -> exn + S)
  (s : S) : exn + S :=
  match xs with
  | [] => inr s
  | x :: xs' =>
      match body x s with
      | inl e => inl e
      | inr s' => for_each xs' body s'
      end
  end.

(** ** [brute_force_association] *)

Section Engine.

Context {F : Arith}.

(** A row of the frequent-itemset table. *)
Record freq_row : Type := {
  Itemsets : itemset;
  Frequency : nat;
  Support : num
}.

(** A row of the rule table: [Rules] is the pair (antecedent, consequent). *)
Record rule_row : Type := {
  Rules : itemset * itemset;
  Confidence : num;
  RuleSupport : num
}.

Definition hundred : num := of_int 100.

(** [(Frequency / num_transactions) * 100] *)
Definition support_of (count n : nat) : num :=
  fmul (fdiv (of_int (Z.of_nat count)) (of_int (Z.of_nat n))) hundred.

(** [(min_support / 100) * num_transactions] *)
Definition min_count (min_support : num) (n : nat) : num :=
  fmul (fdiv min_support hundred) (of_int (Z.of_nat n)).

(** Lines 18-22: the items whose count reaches [min_count], with their
    counts, in the order of [value_counts]. *)
Definition frequent_counts (transactions : list (list item))
  (min_support : num) : list (item * nat) :=
  let n := length transactions in
  let item_counts := value_counts (concat transactions) in
  filter (fun ic => fle (min_count min_support n)
                        (of_int (Z.of_nat (snd ic))))
         item_counts.

(** Lines 22-24: the table of the frequent single items. *)
Definition freq_items (transactions : list (list item)) (min_support : num)
  : list freq_row :=
  map (fun ic => {| Itemsets := Str (fst ic);
                    Frequency := snd ic;
                    Support := support_of (snd ic) (length transactions) |})
      (frequent_counts transactions min_support).

(** The values of the column [freq_items["Itemsets"]]. *)
Definition freq_tokens (transactions : list (list item)) (min_support : num)
  : list item :=
  map fst (frequent_counts transactions min_support).

(** Lines 27-28 *)
Definition valid_itemsets (transactions : list (list item))
  (min_support : num) : list (list item) :=
  filter (fun iset => 1 <? length iset)
         (generate_itemsets (freq_tokens transactions min_support)).

(** Line 33: the number of transactions that contain every item of [i_set]. *)
Definition occurrence_count (transactions : list (list item))
  (i_set : list item) : nat :=
  length (filter (fun transaction => issubset i_set transaction) transactions).

(** Lines 31-34 *)
Definition itemset_occurrences (transactions : list (list item))
  (min_support : num) : list (itemset * nat) :=
  fold_left
    (fun d i_set =>
       dict_set itemset_eqb d (Tup i_set)
                (occurrence_count transactions i_set))
    (valid_itemsets transactions min_support) [].

(** Lines 36-37 *)
Definition itemset_df (transactions : list (list item)) (min_support : num)
  : list freq_row :=
  map (fun kc => {| Itemsets := fst kc;
                    Frequency := snd kc;
                    Support := support_of (snd kc) (length transactions) |})
      (itemset_occurrences transactions min_support).

(** Line 40: the combined frequent-itemset table. *)
Definition all_frequent_items (transactions : list (list item))
  (min_support : num) : list freq_row :=
  freq_items transactions min_support
  ++ filter (fun r => fle min_support (Support r))
            (itemset_df transactions min_support).

(** Line 43 *)
Definition item_support_map (table : list freq_row) : list (itemset * num) :=
  dict_of itemset_eqb (map (fun r => (Itemsets r, Support r)) table).

(** The state of the rule loop: [association_dict] and [support_values]. *)
Definition rule_state : Type :=
  (list ((itemset * itemset) * num) * list num)%type.

Definition pair_eqb (p q : itemset * itemset) : bool :=
  itemset_eqb (fst p) (fst q) && itemset_eqb (snd p) (snd q).

(** Line 49, on the entries [(antecedent, item_support_map[antecedent])] and
    [(consequent, item_support_map[consequent])] of the dictionary. *)
Definition selected (a c : itemset * num) : bool :=
  issubset (pyset (fst c)) (pyset (fst a))
  && negb (itemset_eqb (fst a) (fst c)).

(** Line 50 *)
Definition conf_value (a c : itemset * num) : num :=
  fmul (fdiv (snd a) (snd c)) hundred.

(** Lines 49-52 *)
Definition rule_body (a c : itemset * num) (st : rule_state)
  : exn + rule_state :=
  if selected a c then
    if fzero (snd c) then inl ZeroDivisionError
    else
      inr (dict_set pair_eqb (fst st) (fst a, fst c) (conf_value a c),
           snd st ++ [snd a])
  else inr st.

(** Lines 44-52 *)
Definition rule_loop (m : list (itemset * num)) : exn + rule_state :=
  for_each m (fun a => for_each m (fun c => rule_body a c)) ([], []).

(** Lines 54-55: the rows of [association_dict.items()] with the column
    [support_values] at their side. *)
Definition rule_rows (st : rule_state) : list rule_row :=
  map (fun es => {| Rules := fst (fst es);
                    Confidence := snd (fst es);
                    RuleSupport := snd es |})
      (combine (fst st) (snd st)).

(** The function: the rule table (line 56 keeps the rows whose confidence is
    at least [min_confidence]) and the frequent-itemset table. *)
Definition brute_force_association (transactions : list (list item))
  (min_support min_confidence : num)
  : exn + (list rule_row * list freq_row) :=
  let table := all_frequent_items transactions min_support in
  match rule_loop (item_support_map table) with
  | inl e => inl e
  | inr st =>
      inr (filter (fun r => fle min_confidence (Confidence r)) (rule_rows st),
           table)
  end.

(** Some pair of entries that line 49 selects has a consequent of support
    zero: line 50 divides by it. *)
Definition divides_by_zero (m : list (itemset * num)) : bool :=
  existsb (fun p => selected (fst p) (snd p) && fzero (snd (snd p)))
          (list_prod m m).

(** The pairs of entries that line 49 selects, in the order of the loops. *)
Definition selected_pairs (m : list (itemset * num))
  : list ((itemset * num) * (itemset * num)) :=
  filter (fun p => selected (fst p) (snd p)) (list_prod m m).

(** The row of the rule table that a selected pair of entries gives. *)
Definition rule_of (p : (itemset * num) * (itemset * num)) : rule_row :=
  {| Rules := (fst (fst p), fst (snd p));
     Confidence := conf_value (fst p) (snd p);
     RuleSupport := snd (fst p) |}.

(** The row of [itemset_df] for a candidate itemset. *)
Definition tuple_row (transactions : list (list item)) (i_set : list item)
  : freq_row :=
  {| Itemsets := Tup i_set;
     Frequency := occurrence_count transactions i_set;
     Support := support_of (occurrence_count transactions i_set)
                           (length transactions) |}.

(** The entry of [item_support_map] for a row of the table. *)
Definition entry_of (r : freq_row) : itemset * num :=
  (Itemsets r, Support r).

(** Two rows of the table hold the same itemset, as sets of item tokens. *)
Definition same_itemset (r1 r2 : freq_row) : Prop :=
  same_set (tokens (Itemsets r1)) (tokens (Itemsets r2)) = true.

End Engine.

(** ** Notions used to state further properties *)

(** [e] is made of items of [l], in the order they have in [l]. *)
Inductive subseq (A : Type) : list A -> list A -> Prop :=
| subseq_nil : subseq [] []
| subseq_skip (x : A) (e l : list A) : subseq e l -> subseq e (x :: l)
| subseq_take (x : A) (e l : list A) : subseq e l -> subseq (x :: e) (x :: l).

(** [d[k]], [None] for a missing key. *)
Fixpoint dict_get (K V : Type) (eqb : K -> K -> bool)
  (d : list (K * V)) (k : K) : option V :=
  match d with
  | [] => None
  | (k', v) :: d' => if eqb k' k then Some v else dict_get eqb d' k
  end.

(** ** Inputs and results used below *)

Open Scope string_scope.

(** Rows of the two tables in binary64. *)
Definition row64 (x : itemset) (count : nat) (support : float)
  : @freq_row binary64 :=
  @Build_freq_row binary64 x count support.

Definition rule64 (antecedent consequent : itemset)
  (confidence support : float) : @rule_row binary64 :=
  @Build_rule_row binary64 (antecedent, consequent) confidence support.

(** The transactions [[A,B],[A,B,C],[A],[B,C]]. *)
Definition four_transactions : list (list item) :=
  [["A"; "B"]; ["A"; "B"; "C"]; ["A"]; ["B"; "C"]].

Definition four_table : list (@freq_row binary64) :=
  [ row64 (Str "A") 3 75%float;
    row64 (Str "B") 3 75%float;
    row64 (Str "C") 2 50%float;
    row64 (Tup ["A"; "B"]) 2 50%float;
    row64 (Tup ["B"; "C"]) 2 50%float ].

Definition four_rules : list (@rule_row binary64) :=
  [ rule64 (Tup ["A"; "B"]) (Str "A") (50 / 75 * 100)%float 50%float;
    rule64 (Tup ["A"; "B"]) (Str "B") (50 / 75 * 100)%float 50%float;
    rule64 (Tup ["B"; "C"]) (Str "B") (50 / 75 * 100)%float 50%float;
    rule64 (Tup ["B"; "C"]) (Str "C") 100%float 50%float ].

(** Two transactions, [Pen, Pencil] and [Pencil]. *)
Definition pen_transactions : list (list item) :=
  [["Pen"; "Pencil"]; ["Pencil"]].

Definition pen_table : list (@freq_row binary64) :=
  [ row64 (Str "Pencil") 2 100%float;
    row64 (Str "Pen") 1 50%float;
    row64 (Tup ["Pencil"; "Pen"]) 1 50%float ].

Definition pen_rules : list (@rule_row binary64) :=
  [ rule64 (Str "Pencil") (Str "Pen") 200%float 100%float ].




(** Fifty transactions: [A] twenty-nine times, then [B] twenty-one times. *)
Definition fifty_transactions : list (list item) :=
  (repeat ["A"] 29 ++ repeat ["B"] 21)%list.

(** One transaction, [A, B]. *)
Definition one_transaction : list (list item) := [["A"; "B"]].

Definition one_table : list (@freq_row binary64) :=
  [ row64 (Str "A") 1 100%float;
    row64 (Str "B") 1 100%float;
    row64 (Tup ["A"; "B"]) 1 100%float ].

Definition one_rules : list (@rule_row binary64) :=
  [ rule64 (Tup ["A"; "B"]) (Str "A") 100%float 100%float;
    rule64 (Tup ["A"; "B"]) (Str "B") 100%float 100%float ].

Close Scope string_scope.

(** * Properties *)

(** ** Sets of items as lists *)

Lemma mem_In (x : item) (l : list item) : mem x l = true <-> In x l.
Proof.
  unfold mem. rewrite existsb_exists. split.
  - intros (y & Hy & E). apply String.eqb_eq in E. now subst.
  - intros H. exists x. split; [assumption | apply String.eqb_refl].
Qed.

Lemma issubset_incl (a b : list item) : issubset a b = true <-> incl a b.
Proof.
  unfold issubset, incl. rewrite forallb_forall.
  split; intros H x Hx; apply mem_In; auto.
Qed.

Lemma same_set_spec (a b : list item) :
  same_set a b = true <-> incl a b /\ incl b a.
Proof.
  unfold same_set. now rewrite andb_true_iff, !issubset_incl.
Qed.

Lemma same_set_refl (a : list item) : same_set a a = true.
Proof. apply same_set_spec. split; apply incl_refl. Qed.

Lemma same_set_sym (a b : list item) : same_set a b = same_set b a.
Proof. unfold same_set. apply andb_comm. Qed.

Lemma same_set_nil_r (a : list item) : a <> [] -> same_set a [] = false.
Proof.
  destruct a as [|x a]; [congruence | reflexivity].
Qed.

Lemma list_eqb_eq (l m : list item) : list_eqb l m = true <-> l = m.
Proof.
  unfold list_eqb. destruct (list_eq_dec string_dec l m); split; congruence.
Qed.

Lemma itemset_eqb_eq (a b : itemset) : itemset_eqb a b = true <-> a = b.
Proof.
  destruct a as [s|l], b as [t|m]; simpl.
  - rewrite String.eqb_eq. split; congruence.
  - split; discriminate.
  - split; discriminate.
  - rewrite list_eqb_eq. split; congruence.
Qed.

Lemma itemset_eqb_neq (a b : itemset) : itemset_eqb a b = false <-> a <> b.
Proof.
  rewrite <- itemset_eqb_eq. destruct (itemset_eqb a b); split; congruence.
Qed.

(** ** Counting with [filter] *)

Lemma filter_none (A : Type) (f : A -> bool) (l : list A) :
  (forall x, In x l -> f x = false) -> filter f l = [].
Proof.
  induction l as [|a l IH]; simpl; intros H; [reflexivity|].
  rewrite (H a (or_introl eq_refl)). apply IH. intros x Hx. apply H. now right.
Qed.

Lemma filter_map_swap (A B : Type) (f : B -> bool) (g : A -> B) (l : list A) :
  filter f (map g l) = map g (filter (fun x => f (g x)) l).
Proof.
  induction l as [|a l IH]; simpl; [reflexivity|].
  destruct (f (g a)); simpl; now rewrite IH.
Qed.

(** A list in which every member is related to exactly one member has no two
    related members. *)
Lemma count_one_NoDupA (A : Type) (R : A -> A -> bool) (l : list A) :
  (forall x, R x x = true) ->
  (forall x, In x l -> length (filter (R x) l) = 1) ->
  NoDupA (fun x y => R x y = true) l.
Proof.
  intros Hrefl. induction l as [|a l IH]; intros H; constructor.
  - intros Hin. apply InA_alt in Hin. destruct Hin as (y & Hay & Hy).
    pose proof (H a (or_introl eq_refl)) as Ha. simpl in Ha.
    rewrite Hrefl in Ha. simpl in Ha. injection Ha as Ha.
    apply length_zero_iff_nil in Ha.
    assert (Hf : In y (filter (R a) l)) by (apply filter_In; auto).
    rewrite Ha in Hf. contradiction.
  - apply IH. intros x Hx.
    pose proof (H x (or_intror Hx)) as Hc. simpl in Hc.
    destruct (R x a); simpl in Hc; [|assumption].
    exfalso. injection Hc as Hc. apply length_zero_iff_nil in Hc.
    assert (Hf : In x (filter (R x) l)) by (apply filter_In; auto).
    rewrite Hc in Hf. contradiction.
Qed.

(** ** The subsets [generate_itemsets] enumerates *)

Lemma all_subsets_snoc (A : Type) (items : list A) (x : A) :
  all_subsets (items ++ [x]) = extend_subsets (all_subsets items) x.
Proof. unfold all_subsets. now rewrite fold_left_app. Qed.

Lemma all_subsets_length (A : Type) (items : list A) :
  length (all_subsets items) = 2 ^ length items.
Proof.
  induction items as [|x items IH] using rev_ind; [reflexivity|].
  rewrite all_subsets_snoc. unfold extend_subsets.
  rewrite length_app, length_map, IH, length_app. simpl.
  rewrite Nat.add_1_r, Nat.pow_succ_r'. lia.
Qed.

Lemma all_subsets_head (A : Type) (items : list A) :
  all_subsets items = [] :: generate_itemsets items.
Proof.
  unfold generate_itemsets.
  induction items as [|x items IH] using rev_ind; [reflexivity|].
  rewrite all_subsets_snoc. unfold extend_subsets.
  destruct (all_subsets items) as [|e G]; [discriminate|].
  simpl in IH. injection IH as IH. subst e. reflexivity.
Qed.

Lemma all_subsets_incl (A : Type) (items e : list A) :
  In e (all_subsets items) -> incl e items.
Proof.
  revert e. induction items as [|x items IH] using rev_ind; intros e He.
  - destruct He as [<-|[]]. apply incl_refl.
  - rewrite all_subsets_snoc in He. unfold extend_subsets in He.
    apply in_app_or in He. destruct He as [He|He].
    + apply incl_appl. now apply IH.
    + apply in_map_iff in He. destruct He as (s & <- & Hs).
      apply incl_app; [apply incl_appl; now apply IH | apply incl_appr, incl_refl].
Qed.

Lemma all_subsets_NoDup (A : Type) (items e : list A) :
  NoDup items -> In e (all_subsets items) -> NoDup e.
Proof.
  revert e. induction items as [|x items IH] using rev_ind; intros e Hnd He.
  - destruct He as [<-|[]]. constructor.
  - apply NoDup_remove in Hnd. rewrite app_nil_r in Hnd.
    destruct Hnd as [Hnd Hx].
    rewrite all_subsets_snoc in He. unfold extend_subsets in He.
    apply in_app_or in He. destruct He as [He|He]; [now apply IH|].
    apply in_map_iff in He. destruct He as (s & <- & Hs).
    apply Permutation_NoDup with (l := x :: s).
    + apply Permutation_cons_append.
    + constructor; [|now apply IH].
      intros Hin. apply Hx. now apply (@all_subsets_incl _ _ _ Hs).
Qed.

(** Among the subsets built from distinct items, exactly one has the
    elements of a given subset [S] of the items. *)
Lemma all_subsets_count (items : list item) :
  NoDup items ->
  forall S, incl S items ->
  length (filter (same_set S) (all_subsets items)) = 1.
Proof.
  induction items as [|x items IH] using rev_ind; intros Hnd S HS.
  - apply incl_l_nil in HS. subst S. reflexivity.
  - apply NoDup_remove in Hnd. rewrite app_nil_r in Hnd.
    destruct Hnd as [Hnd Hx].
    rewrite all_subsets_snoc. unfold extend_subsets.
    rewrite filter_app, length_app, filter_map_swap, length_map.
    destruct (in_dec string_dec x S) as [HxS|HxS].
    + rewrite (@filter_none _ (same_set S) (all_subsets items)).
      * simpl.
        rewrite (filter_ext_in _ (same_set (remove string_dec x S))).
        -- apply IH; [assumption|].
           intros y Hy. apply in_remove in Hy. destruct Hy as [Hy Hne].
           apply HS in Hy. apply in_app_or in Hy.
           destruct Hy as [Hy|[Hy|[]]]; congruence.
        -- intros e He. pose proof (@all_subsets_incl _ _ _ He) as Hinc.
           apply eq_iff_eq_true. rewrite !same_set_spec.
           split; intros [H1 H2]; split.
           ++ intros y Hy. apply in_remove in Hy. destruct Hy as [Hy Hne].
              apply H1 in Hy. apply in_app_or in Hy.
              destruct Hy as [Hy|[Hy|[]]]; congruence.
           ++ intros y Hy. apply in_in_remove.
              ** intros ->. apply Hx. now apply Hinc.
              ** apply H2. apply in_or_app. now left.
           ++ intros y Hy. destruct (string_dec y x) as [->|Hne].
              ** apply in_or_app. right. now left.
              ** apply in_or_app. left. apply H1. now apply in_in_remove.
           ++ intros y Hy. apply in_app_or in Hy.
              destruct Hy as [Hy|[<-|[]]]; [|assumption].
              apply H2 in Hy. now apply in_remove in Hy.
      * intros e He. destruct (same_set S e) eqn:E; [|reflexivity].
        exfalso. apply same_set_spec in E. destruct E as [E _].
        apply Hx. apply (@all_subsets_incl _ _ _ He). now apply E.
    + rewrite IH; [|assumption|].
      * rewrite filter_none; [reflexivity|].
        intros e He. destruct (same_set S (e ++ [x])) eqn:E; [|reflexivity].
        exfalso. apply same_set_spec in E. destruct E as [_ E].
        apply HxS. apply E. apply in_or_app. right. now left.
      * intros y Hy. pose proof (HS y Hy) as Hy'. apply in_app_or in Hy'.
        destruct Hy' as [Hy'|[<-|[]]]; [assumption|contradiction].
Qed.

Lemma generate_itemsets_count (items : list item) :
  NoDup items ->
  forall S, S <> [] -> incl S items ->
  length (filter (same_set S) (generate_itemsets items)) = 1.
Proof.
  intros Hnd S Hne HS.
  pose proof (all_subsets_count Hnd HS) as H.
  rewrite all_subsets_head in H. simpl in H.
  now rewrite (same_set_nil_r Hne) in H.
Qed.

Lemma generate_itemsets_nonempty (items : list item) :
  NoDup items -> ~ In [] (generate_itemsets items).
Proof.
  intros Hnd Hin.
  pose proof (all_subsets_count Hnd (incl_nil_l items)) as H.
  rewrite all_subsets_head in H. simpl in H. injection H as H.
  apply length_zero_iff_nil in H.
  assert (Hf : In [] (filter (same_set []) (generate_itemsets items)))
    by (apply filter_In; auto).
  rewrite H in Hf. contradiction.
Qed.

Lemma generate_itemsets_In_all (A : Type) (items e : list A) :
  In e (generate_itemsets items) -> In e (all_subsets items).
Proof. rewrite all_subsets_head. now right. Qed.

(** No two of the generated subsets have the same elements. *)
Lemma generate_itemsets_NoDupA (items : list item) :
  NoDup items ->
  NoDupA (fun a b => same_set a b = true) (generate_itemsets items).
Proof.
  intros Hnd. apply count_one_NoDupA; [apply same_set_refl|].
  intros e He. apply generate_itemsets_count; [assumption| |].
  - intros ->. now apply (generate_itemsets_nonempty Hnd).
  - apply all_subsets_incl. now apply generate_itemsets_In_all.
Qed.

(** ** Dictionaries whose keys are all new *)

Lemma dict_set_fresh (K V : Type) (eqb : K -> K -> bool)
  (d : list (K * V)) (k : K) (v : V) :
  (forall kv, In kv d -> eqb (fst kv) k = false) ->
  dict_set eqb d k v = d ++ [(k, v)].
Proof.
  induction d as [|[k' v'] d IH]; simpl; intros H; [reflexivity|].
  pose proof (H (k', v') (or_introl eq_refl)) as E. simpl in E.
  rewrite E. f_equal.
  apply IH. intros kv Hkv. apply H. now right.
Qed.

Lemma fold_dict_set_NoDup (K V : Type) (eqb : K -> K -> bool)
  (pairs d : list (K * V)) :
  (forall a b, eqb a b = true -> a = b) ->
  NoDup (map fst (d ++ pairs)) ->
  fold_left (fun d kv => dict_set eqb d (fst kv) (snd kv)) pairs d
  = d ++ pairs.
Proof.
  intros Heq. revert d.
  induction pairs as [|[k v] pairs IH]; intros d Hnd; simpl.
  - now rewrite app_nil_r.
  - rewrite dict_set_fresh.
    + rewrite IH; rewrite <- app_assoc; [reflexivity | exact Hnd].
    + intros kv Hkv. destruct (eqb (fst kv) k) eqn:E; [|reflexivity].
      exfalso. apply Heq in E.
      rewrite map_app in Hnd. simpl in Hnd.
      apply NoDup_remove_2 in Hnd. apply Hnd.
      apply in_or_app. left. rewrite <- E. now apply in_map.
Qed.

Lemma dict_of_NoDup (K V : Type) (eqb : K -> K -> bool)
  (pairs : list (K * V)) :
  (forall a b, eqb a b = true -> a = b) ->
  NoDup (map fst pairs) ->
  dict_of eqb pairs = pairs.
Proof.
  intros Heq Hnd. unfold dict_of. now rewrite fold_dict_set_NoDup.
Qed.

Lemma fold_left_through_map (A B C : Type) (f : C -> B -> C) (g : A -> B)
  (l : list A) (c : C) :
  fold_left (fun acc x => f acc (g x)) l c = fold_left f (map g l) c.
Proof.
  revert c. induction l as [|a l IH]; intros c; simpl; [reflexivity|].
  apply IH.
Qed.

(** ** [value_counts] lists every value once *)

Lemma distinct_In (x : item) (l : list item) : In x (distinct l) <-> In x l.
Proof.
  induction l as [|a l IH]; simpl; [tauto|].
  rewrite filter_In, IH, negb_true_iff, String.eqb_neq.
  destruct (string_dec a x) as [->|Hne]; [tauto|].
  split; [tauto|]. intros [H|H]; [congruence|]. right. split; congruence.
Qed.

Lemma distinct_NoDup (l : list item) : NoDup (distinct l).
Proof.
  induction l as [|a l IH]; simpl; constructor.
  - rewrite filter_In, negb_true_iff, String.eqb_neq. tauto.
  - now apply NoDup_filter.
Qed.

Lemma insert_by_count_perm (e : item * nat) (l : list (item * nat)) :
  Permutation (insert_by_count e l) (e :: l).
Proof.
  induction l as [|e' l IH]; simpl; [reflexivity|].
  destruct (snd e <? snd e'); [|reflexivity].
  rewrite IH. apply perm_swap.
Qed.

Lemma value_counts_perm (l : list item) :
  Permutation (value_counts l)
              (map (fun x => (x, occurrences x l)) (distinct l)).
Proof.
  unfold value_counts.
  induction (map (fun x => (x, occurrences x l)) (distinct l)) as [|e t IH];
    simpl; [reflexivity|].
  rewrite insert_by_count_perm. now constructor.
Qed.

Lemma value_counts_NoDup (l : list item) : NoDup (map fst (value_counts l)).
Proof.
  apply Permutation_NoDup with (l := distinct l); [|apply distinct_NoDup].
  rewrite value_counts_perm, map_map, map_id. reflexivity.
Qed.

Lemma value_counts_In (l : list item) (x : item) (c : nat) :
  In (x, c) (value_counts l) -> In x l /\ c = occurrences x l.
Proof.
  intros H. apply (Permutation_in _ (value_counts_perm l)) in H.
  apply in_map_iff in H. destruct H as (y & E & Hy).
  injection E as <- <-. split; [now apply (proj1 (distinct_In _ _)) | reflexivity].
Qed.

(** ** Lists without repetition *)

Lemma NoDup_map_inj (A B : Type) (f : A -> B) (l : list A) :
  (forall x y, f x = f y -> x = y) -> NoDup l -> NoDup (map f l).
Proof.
  intros Hinj. induction 1 as [|x l Hx Hnd IH]; simpl; constructor; trivial.
  rewrite in_map_iff. intros (y & E & Hy). apply Hinj in E. now subst.
Qed.

Lemma NoDup_map_filter (K R : Type) (key : R -> K) (keep : R -> bool)
  (rows : list R) (Hkeys : NoDup (map key rows)) :
  NoDup (map key (filter keep rows)).
Proof.
  induction rows as [|r rows IH]; simpl in *; [constructor|].
  apply NoDup_cons_iff in Hkeys. destruct Hkeys as [Hr Hrows].
  destruct (keep r); simpl; [|now apply IH].
  constructor; [|now apply IH].
  rewrite in_map_iff. intros (y & E & Hy). apply Hr.
  rewrite <- E. apply in_map. now apply filter_In in Hy.
Qed.

Lemma NoDup_list_prod (A B : Type) (l : list A) (l' : list B) :
  NoDup l -> NoDup l' -> NoDup (list_prod l l').
Proof.
  intros Hl Hl'. induction Hl as [|a l Ha Hl IH]; simpl; [constructor|].
  apply NoDup_app.
  - apply NoDup_map_inj; [|assumption]. intros x y E. now injection E.
  - exact IH.
  - intros [x y] H1 H2. apply in_map_iff in H1.
    destruct H1 as (z & E & _). injection E as <- _.
    apply in_prod_iff in H2. now destruct H2.
Qed.

Lemma map_list_prod (A B C D : Type) (f : A -> C) (g : B -> D)
  (l : list A) (l' : list B) :
  map (fun p => (f (fst p), g (snd p))) (list_prod l l')
  = list_prod (map f l) (map g l').
Proof.
  induction l as [|a l IH]; simpl; [reflexivity|].
  now rewrite map_app, IH, !map_map.
Qed.

Lemma combine_map_same (A B C : Type) (f : A -> B) (g : A -> C)
  (l : list A) :
  combine (map f l) (map g l) = map (fun x => (f x, g x)) l.
Proof.
  induction l as [|a l IH]; simpl; [reflexivity|]. now rewrite IH.
Qed.

(** ** Lists without two related members *)

Lemma NoDupA_map_of (A B : Type) (R : B -> B -> Prop) (f : A -> B)
  (l : list A) :
  NoDupA (fun a b => R (f a) (f b)) l -> NoDupA R (map f l).
Proof.
  induction 1 as [|a l Ha Hl IH]; simpl; constructor; [|assumption].
  intros Hin. apply Ha. apply InA_alt in Hin. destruct Hin as (y & Hy & Hin).
  apply in_map_iff in Hin. destruct Hin as (z & <- & Hz).
  apply InA_alt. now exists z.
Qed.

Lemma NoDupA_filter_of (A : Type) (R : A -> A -> Prop) (p : A -> bool)
  (l : list A) :
  NoDupA R l -> NoDupA R (filter p l).
Proof.
  induction 1 as [|a l Ha Hl IH]; simpl; [constructor|].
  destruct (p a); [|assumption]. constructor; [|assumption].
  intros Hin. apply Ha. apply InA_alt in Hin. destruct Hin as (y & Hy & Hin).
  apply filter_In in Hin. apply InA_alt. exists y. tauto.
Qed.

Lemma NoDupA_app_of (A : Type) (R : A -> A -> Prop) (l1 l2 : list A) :
  NoDupA R l1 -> NoDupA R l2 ->
  (forall x y, In x l1 -> In y l2 -> ~ R x y) ->
  NoDupA R (l1 ++ l2).
Proof.
  induction 1 as [|a l1 Ha Hl IH]; simpl; intros H2 Hx; [assumption|].
  constructor.
  - intros Hin. apply InA_alt in Hin. destruct Hin as (y & Hy & Hin).
    apply in_app_or in Hin. destruct Hin as [Hin|Hin].
    + apply Ha. apply InA_alt. now exists y.
    + apply (Hx a y); auto.
  - apply IH; [assumption|]. intros x y H1. apply Hx. now right.
Qed.

Lemma NoDupA_of_NoDup_map (A B : Type) (R : A -> A -> Prop) (g : A -> B)
  (l : list A) :
  (forall a b, R a b -> g a = g b) ->
  NoDup (map g l) -> NoDupA R l.
Proof.
  intros HR. induction l as [|a l IH]; simpl; intros H; constructor.
  - apply NoDup_cons_iff in H. destruct H as [Ha _].
    intros Hin. apply Ha. apply InA_alt in Hin.
    destruct Hin as (y & Hy & Hin). rewrite (HR _ _ Hy). now apply in_map.
  - apply IH. now apply NoDup_cons_iff in H.
Qed.

Lemma NoDupA_NoDup_refl (A : Type) (R : A -> A -> Prop) (l : list A) :
  (forall x, R x x) -> NoDupA R l -> NoDup l.
Proof.
  intros Hrefl. induction 1 as [|a l Ha Hl IH]; constructor; [|assumption].
  intros Hin. apply Ha. apply InA_alt. now exists a.
Qed.

(** ** Loops *)

Lemma for_each_app (A S : Type) (xs ys : list A) (body : A -> S -> exn + S)
  (s : S) :
  for_each (xs ++ ys) body s
  = match for_each xs body s with
    | inl e => inl e
    | inr s' => for_each ys body s'
    end.
Proof.
  revert s. induction xs as [|x xs IH]; intros s; simpl; [reflexivity|].
  destruct (body x s); [reflexivity | apply IH].
Qed.

Lemma for_each_map (A B S : Type) (g : A -> B) (xs : list A)
  (body : B -> S -> exn + S) (s : S) :
  for_each (map g xs) body s = for_each xs (fun x => body (g x)) s.
Proof.
  revert s. induction xs as [|x xs IH]; intros s; simpl; [reflexivity|].
  destruct (body (g x) s); [reflexivity | apply IH].
Qed.

(** Two nested loops visit the pairs of [list_prod], in its order. *)
Lemma for_each_nested (A B S : Type) (xs : list A) (ys : list B)
  (body : A -> B -> S -> exn + S) (s : S) :
  for_each xs (fun x => for_each ys (body x)) s
  = for_each (list_prod xs ys) (fun p => body (fst p) (snd p)) s.
Proof.
  revert s. induction xs as [|x xs IH]; intros s; simpl; [reflexivity|].
  rewrite for_each_app, for_each_map. simpl.
  change (fun y : B => body x y) with (body x).
  destruct (for_each ys (body x) s); [reflexivity | apply IH].
Qed.

(** ** The frequent-itemset table *)

Section Table.

Context {F : Arith}.
Variable transactions : list (list item).
Variable min_support : num.

Lemma freq_tokens_NoDup : NoDup (freq_tokens transactions min_support).
Proof.
  unfold freq_tokens, frequent_counts.
  apply NoDup_map_filter, value_counts_NoDup.
Qed.

Lemma valid_itemsets_In (e : list item) :
  In e (valid_itemsets transactions min_support) ->
  2 <= length e /\ NoDup e /\ incl e (freq_tokens transactions min_support).
Proof.
  unfold valid_itemsets. intros H. apply filter_In in H.
  destruct H as [H1 H2]. apply Nat.ltb_lt in H2.
  apply generate_itemsets_In_all in H1. split; [lia|]. split.
  - exact (@all_subsets_NoDup _ _ _ freq_tokens_NoDup H1).
  - now apply all_subsets_incl.
Qed.

Lemma valid_itemsets_NoDupA :
  NoDupA (fun a b => same_set a b = true)
         (valid_itemsets transactions min_support).
Proof.
  apply NoDupA_filter_of, generate_itemsets_NoDupA, freq_tokens_NoDup.
Qed.

Lemma valid_itemsets_NoDup : NoDup (valid_itemsets transactions min_support).
Proof.
  apply NoDupA_NoDup_refl with (R := fun a b => same_set a b = true).
  - apply same_set_refl.
  - apply valid_itemsets_NoDupA.
Qed.

(** Every candidate is a new key of [itemset_occurrences]. *)
Lemma itemset_occurrences_eq :
  itemset_occurrences transactions min_support
  = map (fun e => (Tup e, occurrence_count transactions e))
        (valid_itemsets transactions min_support).
Proof.
  unfold itemset_occurrences.
  etransitivity.
  { apply (fold_left_through_map
             (fun d kv => dict_set itemset_eqb d (fst kv) (snd kv))
             (fun e => (Tup e, occurrence_count transactions e))). }
  rewrite fold_dict_set_NoDup; [reflexivity | apply itemset_eqb_eq |].
  simpl. rewrite map_map. simpl.
  apply NoDup_map_inj; [|apply valid_itemsets_NoDup].
  intros x y E. now injection E.
Qed.

Lemma itemset_df_eq :
  itemset_df transactions min_support
  = map (tuple_row transactions) (valid_itemsets transactions min_support).
Proof.
  unfold itemset_df. now rewrite itemset_occurrences_eq, map_map.
Qed.

(** The rows of the table: a frequent item, or a candidate whose support
    passes the filter of line 40. *)
Lemma all_frequent_items_In (r : freq_row) :
  In r (all_frequent_items transactions min_support) <->
  (exists ic, In ic (frequent_counts transactions min_support)
     /\ r = {| Itemsets := Str (fst ic); Frequency := snd ic;
               Support := support_of (snd ic) (length transactions) |})
  \/ (exists e, In e (valid_itemsets transactions min_support)
        /\ r = tuple_row transactions e
        /\ fle min_support (Support r) = true).
Proof.
  unfold all_frequent_items, freq_items.
  rewrite in_app_iff, in_map_iff, filter_In, itemset_df_eq, in_map_iff.
  split.
  - intros [(ic & <- & Hic)|[(e & <- & He) Hs]]; [left|right]; eauto.
  - intros [(ic & Hic & ->)|(e & He & -> & Hs)]; [left|right]; eauto.
Qed.

Lemma freq_items_keys :
  map Itemsets (freq_items transactions min_support)
  = map Str (freq_tokens transactions min_support).
Proof.
  unfold freq_items, freq_tokens. now rewrite !map_map.
Qed.

Lemma all_frequent_items_keys_NoDup :
  NoDup (map Itemsets (all_frequent_items transactions min_support)).
Proof.
  unfold all_frequent_items. rewrite map_app. apply NoDup_app.
  - rewrite freq_items_keys. apply NoDup_map_inj; [|apply freq_tokens_NoDup].
    intros x y E. now injection E.
  - apply NoDup_map_filter. rewrite itemset_df_eq, map_map. simpl.
    apply NoDup_map_inj; [|apply valid_itemsets_NoDup].
    intros x y E. now injection E.
  - intros a H1 H2. rewrite freq_items_keys in H1.
    apply in_map_iff in H1. destruct H1 as (s & <- & _).
    apply in_map_iff in H2. destruct H2 as (r & E & Hr).
    apply filter_In in Hr. destruct Hr as [Hr _].
    rewrite itemset_df_eq in Hr. apply in_map_iff in Hr.
    destruct Hr as (e & <- & _). discriminate.
Qed.

(** Every row of the table is a new key of [item_support_map]. *)
Lemma item_support_map_eq :
  item_support_map (all_frequent_items transactions min_support)
  = map entry_of (all_frequent_items transactions min_support).
Proof.
  unfold item_support_map. apply dict_of_NoDup; [apply itemset_eqb_eq|].
  rewrite map_map. apply all_frequent_items_keys_NoDup.
Qed.

End Table.

(** ** The rule loop *)

Section RuleLoop.

Context {F : Arith}.

Lemma pair_eqb_eq (p q : itemset * itemset) : pair_eqb p q = true -> p = q.
Proof.
  destruct p, q. unfold pair_eqb. simpl.
  rewrite andb_true_iff, !itemset_eqb_eq. intros [-> ->]. reflexivity.
Qed.

(** The loop over a list of pairs with distinct keys, none of them in
    [association_dict] yet: it stops at the first selected pair with a zero
    divisor, and otherwise appends one entry and one support per selected
    pair. *)
Lemma rule_loop_flat (ps : list ((itemset * num) * (itemset * num))) :
  forall st : rule_state,
  NoDup (map fst (fst st) ++ map (fun p => (fst (fst p), fst (snd p))) ps) ->
  for_each ps (fun p => rule_body (fst p) (snd p)) st
  = if existsb (fun p => selected (fst p) (snd p) && fzero (snd (snd p))) ps
    then inl ZeroDivisionError
    else inr (fst st
                ++ map (fun p => ((fst (fst p), fst (snd p)),
                                  conf_value (fst p) (snd p)))
                       (filter (fun p => selected (fst p) (snd p)) ps),
              snd st
                ++ map (fun p => snd (fst p))
                       (filter (fun p => selected (fst p) (snd p)) ps)).
Proof.
  induction ps as [|p ps IH]; intros st Hnd; simpl.
  - rewrite !app_nil_r. now destruct st.
  - unfold rule_body at 1.
    destruct (selected (fst p) (snd p)) eqn:Hs; simpl.
    + destruct (fzero (snd (snd p))) eqn:Hz; simpl; [reflexivity|].
      rewrite dict_set_fresh.
      * rewrite IH; simpl.
        -- now rewrite <- !app_assoc.
        -- rewrite map_app, <- app_assoc. exact Hnd.
      * intros kv Hkv.
        destruct (pair_eqb (fst kv) (fst (fst p), fst (snd p))) eqn:E;
          [|reflexivity].
        exfalso. apply pair_eqb_eq in E.
        apply NoDup_remove_2 in Hnd. apply Hnd.
        apply in_or_app. left. rewrite <- E. now apply in_map.
    + apply IH. simpl in Hnd. now apply NoDup_remove_1 in Hnd.
Qed.

Lemma rule_loop_eq (m : list (itemset * num)) :
  NoDup (map fst m) ->
  rule_loop m
  = if divides_by_zero m then inl ZeroDivisionError
    else inr (map (fun p => ((fst (fst p), fst (snd p)),
                             conf_value (fst p) (snd p)))
                  (selected_pairs m),
              map (fun p => snd (fst p)) (selected_pairs m)).
Proof.
  intros Hnd. unfold rule_loop.
  etransitivity; [apply (for_each_nested m m rule_body)|].
  rewrite rule_loop_flat; [reflexivity|]. simpl.
  rewrite (map_list_prod fst fst). now apply NoDup_list_prod.
Qed.

(** [association_dict] and [support_values] have the same length: the
    assignment of line 55 is well formed. *)
Lemma rule_loop_lengths (m : list (itemset * num)) (st : rule_state) :
  NoDup (map fst m) ->
  rule_loop m = inr st -> length (fst st) = length (snd st).
Proof.
  intros Hnd H. rewrite rule_loop_eq in H by assumption.
  destruct (divides_by_zero m); [discriminate|].
  injection H as <-. simpl. now rewrite !length_map.
Qed.

(** The function, in closed form. *)
Lemma brute_force_association_eq (transactions : list (list item))
  (min_support min_confidence : num) :
  brute_force_association transactions min_support min_confidence
  = let table := all_frequent_items transactions min_support in
    if divides_by_zero (map entry_of table) then inl ZeroDivisionError
    else inr (filter (fun r => fle min_confidence (Confidence r))
                     (map rule_of (selected_pairs (map entry_of table))),
              table).
Proof.
  unfold brute_force_association. simpl.
  rewrite item_support_map_eq, rule_loop_eq.
  - destruct (divides_by_zero _); [reflexivity|].
    unfold rule_rows. simpl. now rewrite combine_map_same, map_map.
  - rewrite map_map. apply all_frequent_items_keys_NoDup.
Qed.

Lemma brute_force_association_table (transactions : list (list item))
  (min_support min_confidence : num) (rules : list rule_row)
  (table : list freq_row) :
  brute_force_association transactions min_support min_confidence
  = inr (rules, table) ->
  table = all_frequent_items transactions min_support.
Proof.
  unfold brute_force_association.
  destruct (rule_loop _); [discriminate|]. now intros [= _ <-].
Qed.

(** What every row of the rule table is made of. *)
Lemma brute_force_association_rule (transactions : list (list item))
  (min_support min_confidence : num) (rules : list rule_row)
  (table : list freq_row) (row : rule_row) :
  brute_force_association transactions min_support min_confidence
  = inr (rules, table) ->
  In row rules ->
  exists ra rc,
    In ra table /\ In rc table
    /\ selected (entry_of ra) (entry_of rc) = true
    /\ row = rule_of (entry_of ra, entry_of rc)
    /\ fle min_confidence (Confidence row) = true.
Proof.
  intros H Hrow.
  pose proof H as Ht. apply brute_force_association_table in Ht.
  rewrite brute_force_association_eq in H. simpl in H. rewrite <- Ht in H.
  destruct (divides_by_zero _); [discriminate|].
  injection H as <-. apply filter_In in Hrow. destruct Hrow as [Hrow Hc].
  apply in_map_iff in Hrow. destruct Hrow as ([a c] & <- & Hp).
  unfold selected_pairs in Hp. apply filter_In in Hp.
  destruct Hp as [Hp Hs]. apply in_prod_iff in Hp. destruct Hp as [Ha Hcq].
  apply in_map_iff in Ha. destruct Ha as (ra & <- & Ha).
  apply in_map_iff in Hcq. destruct Hcq as (rc & <- & Hcq).
  exists ra, rc. auto.
Qed.

End RuleLoop.

(** ** Itemsets of the table, as sets of item tokens *)

Section Distinct.

Context {F : Arith}.
Variable transactions : list (list item).
Variable min_support : num.

Lemma singleton_same_set (s t : item) : same_set [s] [t] = true -> s = t.
Proof.
  intros H. apply same_set_spec in H. destruct H as [H _].
  destruct (H s (or_introl eq_refl)) as [E|[]]. now symmetry.
Qed.

(** A single item is never the set of a candidate, which has two distinct
    items at least. *)
Lemma singleton_not_candidate (s : item) (e : list item) :
  In e (valid_itemsets transactions min_support) -> same_set [s] e = false.
Proof.
  intros He. apply valid_itemsets_In in He. destruct He as (Hlen & Hnd & _).
  destruct (same_set [s] e) eqn:E; [|reflexivity]. exfalso.
  apply same_set_spec in E. destruct E as [_ E].
  destruct e as [|a [|b e]]; simpl in Hlen; try lia.
  destruct (E a (or_introl eq_refl)) as [Ha|[]].
  destruct (E b (or_intror (or_introl eq_refl))) as [Hb|[]].
  subst a b. apply NoDup_cons_iff in Hnd. apply (proj1 Hnd). now left.
Qed.

Lemma all_frequent_items_NoDupA :
  NoDupA same_itemset (all_frequent_items transactions min_support).
Proof.
  unfold all_frequent_items. apply NoDupA_app_of.
  - unfold freq_items. apply NoDupA_map_of.
    apply NoDupA_of_NoDup_map with (g := fst).
    + intros a b. unfold same_itemset. simpl. apply singleton_same_set.
    + apply freq_tokens_NoDup.
  - rewrite itemset_df_eq. apply NoDupA_filter_of, NoDupA_map_of.
    exact (valid_itemsets_NoDupA transactions min_support).
  - intros x y Hx Hy. unfold freq_items in Hx. apply in_map_iff in Hx.
    destruct Hx as (ic & <- & _). apply filter_In in Hy.
    destruct Hy as [Hy _]. rewrite itemset_df_eq in Hy.
    apply in_map_iff in Hy. destruct Hy as (e & <- & He).
    unfold same_itemset. simpl.
    now rewrite (@singleton_not_candidate (fst ic) e He).
Qed.

End Distinct.

(** ** Raising the support threshold *)

Lemma all_subsets_filter_mono (A B : Type) (f : A -> B) (p q : A -> bool)
  (l : list A) :
  (forall x, In x l -> p x = true -> q x = true) ->
  forall e, In e (all_subsets (map f (filter p l))) ->
            In e (all_subsets (map f (filter q l))).
Proof.
  induction l as [|x l IH] using rev_ind; intros Hpq e He; [exact He|].
  assert (Hl : forall y, In y l -> p y = true -> q y = true).
  { intros y Hy. apply Hpq. apply in_or_app. now left. }
  assert (Hx : p x = true -> q x = true).
  { apply Hpq. apply in_or_app. right. now left. }
  rewrite filter_app, map_app in He |- *. simpl in He |- *.
  destruct (p x) eqn:Px.
  - rewrite (Hx eq_refl). simpl in He |- *.
    rewrite all_subsets_snoc in He |- *. unfold extend_subsets in He |- *.
    apply in_app_or in He. apply in_or_app. destruct He as [He|He].
    + left. now apply IH.
    + right. apply in_map_iff in He. destruct He as (s & <- & Hs).
      apply in_map_iff. exists s. split; [reflexivity | now apply IH].
  - simpl in He. rewrite app_nil_r in He. apply (IH Hl) in He.
    destruct (q x); simpl.
    + rewrite all_subsets_snoc. unfold extend_subsets.
      apply in_or_app. now left.
    + now rewrite app_nil_r.
Qed.

(** ** The order of binary64 and of the rationals *)

Lemma SFleb_trans (x y z : spec_float) :
  SFleb x y = true -> SFleb y z = true -> SFleb x z = true.
Proof.
  unfold SFleb, SFcompare.
  destruct x as [sx|sx| |sx mx ex], y as [sy|sy| |sy my ey],
    z as [sz|sz| |sz mz ez];
    try destruct sx; try destruct sy; try destruct sz;
    try reflexivity; try discriminate.
  all: change (Pos.compare_cont Eq) with Pos.compare.
  all: destruct (Z.compare_spec ex ey), (Z.compare_spec ey ez),
         (Z.compare_spec ex ez); try reflexivity; try discriminate; try lia.
  all: subst.
  all: destruct (Pos.compare_spec mx my), (Pos.compare_spec my mz),
         (Pos.compare_spec mx mz); simpl; try reflexivity; try discriminate;
         try lia.
Qed.

(** Nothing at or above a number above zero is zero. *)
Lemma SF_positive_le_nonzero (s x : spec_float) :
  SFltb (S754_zero false) s = true -> SFleb s x = true ->
  SFeqb x (S754_zero false) = false.
Proof.
  unfold SFltb, SFleb, SFeqb, SFcompare.
  destruct s as [ss|ss| |ss ms es], x as [sx|sx| |sx mx ex];
    try destruct ss; try destruct sx; try reflexivity; try discriminate.
Qed.

Lemma binary64_positive_le_nonzero (s x : float) :
  PrimFloat.ltb 0 s = true -> PrimFloat.leb s x = true ->
  @fzero binary64 x = false.
Proof.
  simpl. rewrite ltb_spec, leb_spec, eqb_spec.
  change (Prim2SF 0) with (S754_zero false).
  change (Prim2SF PrimFloat.zero) with (S754_zero false).
  apply SF_positive_le_nonzero.
Qed.

#[export] Instance binary64_LeTransitive : LeTransitive binary64.
Proof.
  split. simpl. intros x y z. rewrite !leb_spec. apply SFleb_trans.
Qed.

#[export] Instance exact_LeTransitive : LeTransitive exact.
Proof.
  split. simpl. intros x y z. rewrite !Qle_bool_iff. apply Qle_trans.
Qed.

(** Raising the support threshold from [s1] to [s2], when the two count
    thresholds of line 22 are in the same order as [s1] and [s2]. *)
Section Monotone.

Context {F : Arith} {T : LeTransitive F}.
Variable transactions : list (list item).
Variables s1 s2 : num.
Hypothesis s1_s2 : fle s1 s2 = true.
Hypothesis counts_ordered :
  fle (min_count s1 (length transactions))
      (min_count s2 (length transactions)) = true.

Lemma frequent_counts_mono (ic : item * nat) :
  In ic (frequent_counts transactions s2) ->
  In ic (frequent_counts transactions s1).
Proof.
  unfold frequent_counts. rewrite !filter_In. intros [H1 H2]. split; auto.
  eapply fle_trans; [exact counts_ordered | exact H2].
Qed.

Lemma valid_itemsets_mono (e : list item) :
  In e (valid_itemsets transactions s2) ->
  In e (valid_itemsets transactions s1).
Proof.
  unfold valid_itemsets. rewrite !filter_In. intros [H1 H2]. split; auto.
  apply generate_itemsets_In_all in H1.
  unfold freq_tokens, frequent_counts in *.
  apply all_subsets_filter_mono
    with (q := fun ic => fle (min_count s1 (length transactions))
                             (of_int (Z.of_nat (snd ic)))) in H1.
  - rewrite all_subsets_head in H1. destruct H1 as [<-|H1]; [|exact H1].
    discriminate.
  - intros x _ Hx. eapply fle_trans; [exact counts_ordered | exact Hx].
Qed.

Lemma all_frequent_items_mono :
  incl (all_frequent_items transactions s2)
       (all_frequent_items transactions s1).
Proof.
  intros r Hr. apply all_frequent_items_In in Hr. apply all_frequent_items_In.
  destruct Hr as [(ic & Hic & ->)|(e & He & -> & Hs)]; [left|right].
  - exists ic. split; [now apply frequent_counts_mono | reflexivity].
  - exists e. split; [now apply valid_itemsets_mono|]. split; [reflexivity|].
    eapply fle_trans; [exact s1_s2 | exact Hs].
Qed.

(** When both calls return, the table at [s2] is within the table at [s1]. *)
Lemma raising_min_support_ordered (min_confidence : num)
  (rules1 rules2 : list rule_row) (table1 table2 : list freq_row) :
  brute_force_association transactions s1 min_confidence
  = inr (rules1, table1) ->
  brute_force_association transactions s2 min_confidence
  = inr (rules2, table2) ->
  incl (map Itemsets table2) (map Itemsets table1)
  /\ length table2 <= length table1.
Proof.
  intros R1 R2.
  apply brute_force_association_table in R1, R2. subst table1 table2.
  split.
  - apply incl_map, all_frequent_items_mono.
  - apply NoDup_incl_length; [|exact all_frequent_items_mono].
    apply NoDup_map_inv with (f := Itemsets).
    apply all_frequent_items_keys_NoDup.
Qed.

End Monotone.

(** On the four transactions, in binary64, from 25 to 50. *)
Lemma raising_min_support_four :
  incl (map (@Itemsets binary64)
            (@all_frequent_items binary64 four_transactions 50%float))
       (map (@Itemsets binary64)
            (@all_frequent_items binary64 four_transactions 25%float))
  /\ length (@all_frequent_items binary64 four_transactions 50%float)
     <= length (@all_frequent_items binary64 four_transactions 25%float).
Proof.
  apply (@raising_min_support_ordered binary64 binary64_LeTransitive
           four_transactions 25%float 50%float eq_refl eq_refl 50%float
           (match @brute_force_association binary64 four_transactions
                    25%float 50%float with
            | inr res => fst res
            | inl _ => []
            end)
           (match @brute_force_association binary64 four_transactions
                    50%float 50%float with
            | inr res => fst res
            | inl _ => []
            end)); vm_compute; reflexivity.
Qed.

(** ** Exact arithmetic *)

(** Without rounding, the test of line 22 on the count is the test of line 40
    on the support. *)
Lemma exact_min_count_support (min_support : Q) (count n : nat) :
  1 <= n ->
  (@fle exact (@min_count exact min_support n) (inject_Z (Z.of_nat count))
   = true
   <-> @fle exact min_support (@support_of exact count n) = true).
Proof.
  intros Hn. simpl. unfold min_count, support_of, hundred. simpl.
  rewrite !Qle_bool_iff.
  assert (Hpos : (0 < inject_Z (Z.of_nat n))%Q).
  { rewrite <- (Zlt_Qlt 0). lia. }
  assert (Hne : ~ (inject_Z (Z.of_nat n) == 0)%Q).
  { intros E. rewrite E in Hpos. discriminate. }
  split; intros H.
  - apply Qmult_le_r with (z := (inject_Z (Z.of_nat n) / 100)%Q).
    + apply Qlt_shift_div_l; [reflexivity|]. now rewrite Qmult_0_l.
    + setoid_replace (min_support * (inject_Z (Z.of_nat n) / 100))%Q
        with (min_support / 100 * inject_Z (Z.of_nat n))%Q by field.
      setoid_replace
        (inject_Z (Z.of_nat count) / inject_Z (Z.of_nat n) * 100
         * (inject_Z (Z.of_nat n) / 100))%Q
        with (inject_Z (Z.of_nat count)) by (field; exact Hne).
      exact H.
  - apply Qmult_le_r with (z := (inject_Z (Z.of_nat n) / 100)%Q) in H.
    + setoid_replace (min_support * (inject_Z (Z.of_nat n) / 100))%Q
        with (min_support / 100 * inject_Z (Z.of_nat n))%Q in H by field.
      setoid_replace
        (inject_Z (Z.of_nat count) / inject_Z (Z.of_nat n) * 100
         * (inject_Z (Z.of_nat n) / 100))%Q
        with (inject_Z (Z.of_nat count)) in H by (field; exact Hne).
      exact H.
    + apply Qlt_shift_div_l; [reflexivity|]. now rewrite Qmult_0_l.
Qed.

(** Without rounding, every record of the table has a support equal to
    100 * count / N and at least the threshold. *)
Lemma exact_support_threshold (transactions : list (list item))
  (min_support : Q) (r : @freq_row exact) :
  1 <= length transactions ->
  In r (@all_frequent_items exact transactions min_support) ->
  (@Support exact r
   == 100 * inject_Z (Z.of_nat (Frequency r))
      / inject_Z (Z.of_nat (length transactions)))%Q
  /\ (min_support <= @Support exact r)%Q.
Proof.
  intros Hn Hr.
  assert (Hne : ~ (inject_Z (Z.of_nat (length transactions)) == 0)%Q).
  { intros E. assert (Hpos : (0 < inject_Z (Z.of_nat (length transactions)))%Q)
      by (rewrite <- (Zlt_Qlt 0); lia).
    rewrite E in Hpos. discriminate. }
  apply all_frequent_items_In in Hr.
  destruct Hr as [(ic & Hic & ->)|(e & He & -> & Hs)]; simpl.
  - split.
    + unfold support_of, hundred. simpl. field. exact Hne.
    + unfold frequent_counts in Hic. apply filter_In in Hic.
      destruct Hic as [_ Hic].
      apply (proj1 (exact_min_count_support min_support (snd ic) Hn)) in Hic.
      now apply Qle_bool_iff in Hic.
  - split.
    + unfold support_of, hundred. simpl. field. exact Hne.
    + now apply Qle_bool_iff in Hs.
Qed.

(** ** Confidence of the rules whose consequent is a subset in item tokens *)

Lemma occurrence_count_anti (transactions : list (list item))
  (e1 e2 : list item) :
  incl e2 e1 ->
  occurrence_count transactions e1 <= occurrence_count transactions e2.
Proof.
  intros Hinc. unfold occurrence_count.
  induction transactions as [|t ts IH]; simpl; [lia|].
  destruct (issubset e1 t) eqn:E1, (issubset e2 t) eqn:E2; simpl; try lia.
  exfalso. apply issubset_incl in E1.
  assert (E : issubset e2 t = true)
    by (apply issubset_incl; eapply incl_tran; eauto).
  congruence.
Qed.

Lemma occurrence_count_le_occurrences (transactions : list (list item))
  (s : item) (e : list item) :
  In s e ->
  occurrence_count transactions e <= occurrences s (concat transactions).
Proof.
  intros Hs. unfold occurrence_count, occurrences.
  induction transactions as [|t ts IH]; simpl; [lia|].
  rewrite count_occ_app.
  destruct (issubset e t) eqn:E; simpl.
  - apply issubset_incl in E.
    assert (Ht : count_occ string_dec t s > 0)
      by (apply count_occ_In; now apply E).
    eapply Nat.le_trans; [apply le_n_S; exact IH|].
    change (1 + count_occ string_dec (concat ts) s
            <= count_occ string_dec t s + count_occ string_dec (concat ts) s).
    apply Nat.add_le_mono; [exact Ht | apply Nat.le_refl].
  - eapply Nat.le_trans; [exact IH | apply Nat.le_add_l].
Qed.

Lemma all_frequent_items_nil {F : Arith} (min_support : num) :
  all_frequent_items [] min_support = [].
Proof. reflexivity. Qed.

(** The count recorded for an itemset is at most the count recorded for any
    itemset of the table whose item tokens it contains. *)
Lemma frequency_anti {F : Arith} (transactions : list (list item))
  (min_support : num) (ra rc : freq_row) :
  In ra (all_frequent_items transactions min_support) ->
  In rc (all_frequent_items transactions min_support) ->
  Itemsets ra <> Itemsets rc ->
  incl (tokens (Itemsets rc)) (tokens (Itemsets ra)) ->
  Frequency ra <= Frequency rc.
Proof.
  intros Ha Hc Hne Hinc.
  apply all_frequent_items_In in Ha, Hc.
  destruct Ha as [(ia & Hia & ->)|(ea & Hea & -> & _)];
    destruct Hc as [(ic & Hic & ->)|(ec & Hec & -> & _)]; simpl in *.
  - exfalso. apply Hne. f_equal.
    destruct (Hinc (fst ic) (or_introl eq_refl)) as [E|[]]. exact E.
  - exfalso. apply valid_itemsets_In in Hec.
    destruct Hec as (Hlen & Hnd & _).
    destruct ec as [|a [|b ec]]; simpl in Hlen; try lia.
    destruct (Hinc a (or_introl eq_refl)) as [Ea|[]].
    destruct (Hinc b (or_intror (or_introl eq_refl))) as [Eb|[]].
    subst a b. apply NoDup_cons_iff in Hnd. apply (proj1 Hnd). now left.
  - unfold frequent_counts in Hic. apply filter_In in Hic.
    destruct Hic as [Hic _]. destruct ic as [s c].
    apply value_counts_In in Hic. destruct Hic as [_ ->]. simpl in *.
    apply occurrence_count_le_occurrences. apply Hinc. now left.
  - now apply occurrence_count_anti.
Qed.

(** In exact arithmetic, a returned rule whose consequent is a subset of its
    antecedent as sets of item tokens has a confidence of at most 100. *)
Lemma exact_confidence_at_most_100 (transactions : list (list item))
  (min_support min_confidence : Q) (rules : list (@rule_row exact))
  (table : list (@freq_row exact)) (row : @rule_row exact) :
  @brute_force_association exact transactions min_support min_confidence
  = inr (rules, table) ->
  In row rules ->
  incl (tokens (snd (Rules row))) (tokens (fst (Rules row))) ->
  (@Confidence exact row <= 100)%Q.
Proof.
  intros H Hrow Hinc.
  pose proof H as Ht. apply brute_force_association_table in Ht.
  destruct (@brute_force_association_rule exact _ _ _ _ _ _ H Hrow)
    as (ra & rc & Ha & Hc & Hsel & -> & _).
  simpl in Hinc.
  assert (Hz : @fzero exact (Support rc) = false).
  { rewrite brute_force_association_eq in H. simpl in H.
    destruct (divides_by_zero _) eqn:E; [discriminate|].
    unfold divides_by_zero in E.
    destruct (@fzero exact (Support rc)) eqn:Z; [|reflexivity].
    rewrite <- E. symmetry. apply existsb_exists.
    exists (entry_of ra, entry_of rc). split.
    - apply in_prod_iff. rewrite <- Ht. split; now apply in_map.
    - simpl. rewrite Hsel. exact Z. }
  assert (Hne : Itemsets ra <> Itemsets rc).
  { unfold selected in Hsel. apply andb_true_iff in Hsel.
    destruct Hsel as [_ Hsel]. apply negb_true_iff in Hsel.
    now apply itemset_eqb_neq in Hsel. }
  rewrite Ht in Ha, Hc.
  pose proof (frequency_anti _ _ _ _ Ha Hc Hne Hinc) as Hfreq.
  assert (Hn : 1 <= length transactions).
  { destruct transactions; [contradiction | simpl; lia]. }
  destruct (@exact_support_threshold transactions min_support ra Hn Ha)
    as [Ea _].
  destruct (@exact_support_threshold transactions min_support rc Hn Hc)
    as [Ec _].
  simpl in Hz. unfold rule_of, conf_value, hundred. simpl.
  assert (Hpos : (0 < inject_Z (Z.of_nat (length transactions)))%Q)
    by (rewrite <- (Zlt_Qlt 0); lia).
  assert (Hle : (@Support exact ra <= @Support exact rc)%Q).
  { rewrite Ea, Ec. apply Qmult_le_compat_r.
    - apply Qmult_le_l; [reflexivity|]. rewrite <- Zle_Qle. lia.
    - apply Qlt_le_weak. now apply Qinv_lt_0_compat. }
  assert (Hsc : (0 < @Support exact rc)%Q).
  { apply Qle_lt_or_eq in Hle. clear Hle.
    assert (H0 : (0 <= @Support exact rc)%Q).
    { rewrite Ec. apply Qle_shift_div_l; [exact Hpos|].
      rewrite Qmult_0_l.
      apply Qmult_le_0_compat; [discriminate|].
      change (inject_Z 0 <= inject_Z (Z.of_nat (Frequency rc)))%Q.
      rewrite <- Zle_Qle. lia. }
    apply Qle_lt_or_eq in H0. destruct H0 as [H0|H0]; [exact H0|].
    exfalso. symmetry in H0. apply Qeq_bool_iff in H0. congruence. }
  setoid_replace (100 : Q) with (1 * 100)%Q at 2 by ring.
  apply Qmult_le_compat_r; [|discriminate].
  apply Qle_shift_div_r; [exact Hsc|]. now rewrite Qmult_1_l.
Qed.

(** ** Evaluations in binary64 *)

Lemma four_result :
  @brute_force_association binary64 four_transactions 50%float 50%float
  = inr (four_rules, four_table).
Proof. vm_compute. reflexivity. Qed.

Lemma pen_result :
  @brute_force_association binary64 pen_transactions 50%float 50%float
  = inr (pen_rules, pen_table).
Proof. vm_compute. reflexivity. Qed.

(** * The claims *)

Lemma NoDup_map_eq (A B : Type) (f : A -> B) (l : list A) (x y : A) :
  NoDup (map f l) -> In x l -> In y l -> f x = f y -> x = y.
Proof.
  induction l as [|a l IH]; simpl; intros Hnd Hx Hy E; [contradiction|].
  apply NoDup_cons_iff in Hnd. destruct Hnd as [Ha Hnd].
  destruct Hx as [->|Hx], Hy as [->|Hy]; auto.
  - exfalso. apply Ha. rewrite E. now apply in_map.
  - exfalso. apply Ha. rewrite <- E. now apply in_map.
Qed.

(** C1. Every row of the rule table returned by [brute_force_association]
    pairs an antecedent and a consequent that are itemsets of the
    frequent-itemset table, each in exactly one record; the row's confidence
    is support(antecedent) / support(consequent) * 100 for the supports of
    these two records, and the row's support is the antecedent's support. *)
Theorem rule_confidence_and_support {F : Arith}
  (transactions : list (list item)) (min_support min_confidence : num)
  (rules : list rule_row) (table : list freq_row) (row : rule_row) :
  brute_force_association transactions min_support min_confidence
  = inr (rules, table) ->
  In row rules ->
  exists ra rc : freq_row,
    In ra table /\ In rc table
    /\ Itemsets ra = fst (Rules row) /\ Itemsets rc = snd (Rules row)
    /\ (forall r, In r table -> Itemsets r = fst (Rules row) -> r = ra)
    /\ (forall r, In r table -> Itemsets r = snd (Rules row) -> r = rc)
    /\ Confidence row = fmul (fdiv (Support ra) (Support rc)) (of_int 100)
    /\ RuleSupport row = Support ra.
Proof.
  intros H Hrow.
  pose proof H as Ht. apply brute_force_association_table in Ht.
  destruct (@brute_force_association_rule F _ _ _ _ _ _ H Hrow)
    as (ra & rc & Ha & Hc & _ & -> & _).
  assert (Hnd : NoDup (map Itemsets table))
    by (rewrite Ht; apply all_frequent_items_keys_NoDup).
  exists ra, rc. simpl. repeat split; auto.
  - intros r Hr E. exact (@NoDup_map_eq _ _ Itemsets table _ _ Hnd Hr Ha E).
  - intros r Hr E. exact (@NoDup_map_eq _ _ Itemsets table _ _ Hnd Hr Hc E).
Qed.

Lemma rule_confidence_and_support_witness :
  exists ra rc : @freq_row binary64,
    In ra four_table /\ In rc four_table
    /\ Itemsets ra = Tup ["A"; "B"]%string /\ Itemsets rc = Str "A"
    /\ (forall r, In r four_table ->
                  Itemsets r = Tup ["A"; "B"]%string -> r = ra)
    /\ (forall r, In r four_table -> Itemsets r = Str "A" -> r = rc)
    /\ (50 / 75 * 100)%float
       = PrimFloat.mul (PrimFloat.div (Support ra) (Support rc)) 100%float
    /\ 50%float = Support ra.
Proof.
  apply (@rule_confidence_and_support binary64 four_transactions
           50%float 50%float four_rules four_table
           (rule64 (Tup ["A"; "B"]%string) (Str "A")
                   (50 / 75 * 100)%float 50%float)).
  - vm_compute. reflexivity.
  - simpl. auto.
Defined.

(** In exact arithmetic the confidence of C1 is 100 * support(antecedent) /
    support(consequent). *)
Lemma exact_confidence (sa sc : Q) :
  (@fmul exact (@fdiv exact sa sc) (@of_int exact 100) == 100 * sa / sc)%Q.
Proof.
  simpl. unfold Qdiv. ring.
Qed.

(** C2. On the transactions [Pen, Pencil] and [Pencil], with both thresholds
    at 50, the rule table has the row Pencil -> Pen: its confidence passes
    the threshold, but the item Pen is not among the items of its antecedent
    (line 49 compares the characters of the two strings). *)
Theorem pen_pencil_rule :
  exists rules table,
    @brute_force_association binary64 pen_transactions 50%float 50%float
    = inr (rules, table)
    /\ exists row,
         In row rules
         /\ Rules row = (Str "Pencil", Str "Pen")
         /\ PrimFloat.leb 50%float (Confidence row) = true
         /\ issubset (tokens (snd (Rules row))) (tokens (fst (Rules row)))
            = false
         /\ issubset (pyset (snd (Rules row))) (pyset (fst (Rules row)))
            = true.
Proof.
  exists pen_rules, pen_table. split; [exact pen_result|].
  exists (rule64 (Str "Pencil") (Str "Pen") 200%float 100%float).
  repeat split. now left.
Qed.

(** C3. On fifty transactions of which twenty-nine hold the item A, with a
    minimum support of 58, the table has the record of A, whose count 29
    passes the test of line 22, and whose support, computed in binary64 as
    29 / 50 * 100, is below 58. *)
Theorem rounded_support_below_threshold :
  @brute_force_association binary64 fifty_transactions 58%float 50%float
  = inr ([], [row64 (Str "A") 29 (29 / 50 * 100)%float])
  /\ PrimFloat.leb 58%float (29 / 50 * 100)%float = false
  /\ PrimFloat.ltb (29 / 50 * 100)%float 58%float = true.
Proof. vm_compute. repeat split. Qed.

(** C4. On [[A,B],[A,B,C],[A],[B,C]] with both thresholds at 50, the
    frequent-itemset table has A and B with support 75, C and (A,B) with
    support 50, and the rule table has the rule (A,B) -> A, with confidence
    50 / 75 * 100, a number between 66.66 and 66.67. *)
Theorem four_transactions_example :
  exists rules table,
    @brute_force_association binary64 four_transactions 50%float 50%float
    = inr (rules, table)
    /\ In (row64 (Str "A") 3 75%float) table
    /\ In (row64 (Str "B") 3 75%float) table
    /\ In (row64 (Str "C") 2 50%float) table
    /\ In (row64 (Tup ["A"; "B"]%string) 2 50%float) table
    /\ exists row,
         In row rules
         /\ Rules row = (Tup ["A"; "B"]%string, Str "A")
         /\ Confidence row = (50 / 75 * 100)%float
         /\ PrimFloat.ltb (6666 / 100)%float (Confidence row) = true
         /\ PrimFloat.ltb (Confidence row) (6667 / 100)%float = true.
Proof.
  exists four_rules, four_table. split; [exact four_result|].
  unfold four_table. simpl. repeat (split; [tauto|]).
  exists (rule64 (Tup ["A"; "B"]%string) (Str "A")
                 (50 / 75 * 100)%float 50%float).
  repeat split. now left.
Qed.

(** C5. For a list of k distinct items, [generate_itemsets] returns
    2^k - 1 lists; each is non-empty, without repetition, and made of items
    of the input; every non-empty subset of the input is the set of exactly
    one of them; the empty list is not among them. *)
Theorem generate_itemsets_powerset (items : list item) :
  NoDup items ->
  length (generate_itemsets items) = 2 ^ length items - 1
  /\ (forall e, In e (generate_itemsets items) ->
        e <> [] /\ NoDup e /\ incl e items)
  /\ (forall S, S <> [] -> incl S items ->
        length (filter (same_set S) (generate_itemsets items)) = 1)
  /\ ~ In [] (generate_itemsets items).
Proof.
  intros Hnd. repeat split.
  - pose proof (all_subsets_length items) as H.
    rewrite all_subsets_head in H. simpl in H. lia.
  - intros ->. now apply (generate_itemsets_nonempty Hnd).
  - apply generate_itemsets_In_all in H.
    exact (@all_subsets_NoDup _ _ _ Hnd H).
  - apply generate_itemsets_In_all in H. now apply all_subsets_incl.
  - intros S HS Hinc. now apply generate_itemsets_count.
  - now apply generate_itemsets_nonempty.
Qed.

Lemma generate_itemsets_powerset_witness :
  length (generate_itemsets ["A"; "B"; "C"]%string) = 2 ^ 3 - 1
  /\ (forall e, In e (generate_itemsets ["A"; "B"; "C"]%string) ->
        e <> [] /\ NoDup e /\ incl e ["A"; "B"; "C"]%string)
  /\ (forall S, S <> [] -> incl S ["A"; "B"; "C"]%string ->
        length (filter (same_set S)
                       (generate_itemsets ["A"; "B"; "C"]%string)) = 1)
  /\ ~ In [] (generate_itemsets ["A"; "B"; "C"]%string).
Proof.
  apply (@generate_itemsets_powerset ["A"; "B"; "C"]%string).
  repeat constructor; simpl; intuition discriminate.
Defined.


(** C7, as the code has it. [brute_force_association] checks neither
    threshold: whatever their values, when no record of the frequent-itemset
    table has a support of zero, it returns the rule table and the
    frequent-itemset table. *)
Theorem returns_without_validation {F : Arith}
  (transactions : list (list item)) (min_support min_confidence : num) :
  forallb (fun r => negb (fzero (Support r)))
          (all_frequent_items transactions min_support) = true ->
  exists rules,
    brute_force_association transactions min_support min_confidence
    = inr (rules, all_frequent_items transactions min_support).
Proof.
  intros H. rewrite brute_force_association_eq. simpl.
  destruct (divides_by_zero _) eqn:E; [exfalso | eexists; reflexivity].
  unfold divides_by_zero in E. apply existsb_exists in E.
  destruct E as ([a c] & Hp & Hc).
  apply in_prod_iff in Hp. destruct Hp as [_ Hcin].
  apply in_map_iff in Hcin. destruct Hcin as (rc & <- & Hrc).
  simpl in Hc. apply andb_true_iff in Hc. destruct Hc as [_ Hz].
  rewrite forallb_forall in H. apply H in Hrc.
  rewrite Hz in Hrc. discriminate.
Qed.

Lemma returns_without_validation_witness :
  exists rules,
    @brute_force_association binary64 one_transaction
      (-10)%float (-5)%float
    = inr (rules,
           @all_frequent_items binary64 one_transaction (-10)%float).
Proof.
  apply (@returns_without_validation binary64 one_transaction
           (-10)%float (-5)%float).
  vm_compute. reflexivity.
Defined.

(** C7 fails: with a minimum support of -10 and a minimum confidence of -5,
    both below 0, the call raises nothing and returns both tables. *)
Lemma out_of_range_thresholds_accepted :
  PrimFloat.ltb (-10)%float 0%float = true
  /\ PrimFloat.ltb (-5)%float 0%float = true
  /\ @brute_force_association binary64 one_transaction
       (-10)%float (-5)%float
     = inr (one_rules, one_table).
Proof. vm_compute. repeat split. Qed.

(** C8. On an empty sequence of transactions, whatever the thresholds,
    [brute_force_association] returns two empty tables. *)
Theorem empty_transactions {F : Arith} (min_support min_confidence : num) :
  brute_force_association [] min_support min_confidence = inr ([], []).
Proof. reflexivity. Qed.

(** C9. No two records of the frequent-itemset table returned by
    [brute_force_association] hold the same set of item tokens. *)
Theorem no_itemset_twice {F : Arith}
  (transactions : list (list item)) (min_support min_confidence : num)
  (rules : list rule_row) (table : list freq_row) :
  brute_force_association transactions min_support min_confidence
  = inr (rules, table) ->
  NoDupA same_itemset table.
Proof.
  intros H. apply brute_force_association_table in H. subst table.
  apply all_frequent_items_NoDupA.
Qed.

Lemma no_itemset_twice_witness : NoDupA (@same_itemset binary64) four_table.
Proof.
  apply (@no_itemset_twice binary64 four_transactions 50%float 50%float
           four_rules four_table).
  vm_compute. reflexivity.
Defined.

(** C10. On the transactions [Pen, Pencil] and [Pencil], with both
    thresholds at 50, the rule table has a row of confidence 200: the
    support 100 of its antecedent Pencil is above the support 50 of its
    consequent Pen. *)
Theorem pen_pencil_confidence :
  exists rules table,
    @brute_force_association binary64 pen_transactions 50%float 50%float
    = inr (rules, table)
    /\ In (row64 (Str "Pencil") 2 100%float) table
    /\ In (row64 (Str "Pen") 1 50%float) table
    /\ exists row,
         In row rules
         /\ Rules row = (Str "Pencil", Str "Pen")
         /\ Confidence row = 200%float
         /\ PrimFloat.leb (Confidence row) 100%float = false.
Proof.
  exists pen_rules, pen_table. split; [exact pen_result|].
  unfold pen_table. simpl. repeat (split; [tauto|]).
  exists (rule64 (Str "Pencil") (Str "Pen") 200%float 100%float).
  repeat split. now left.
Qed.

(** * Further properties of [generate_itemsets] *)

Lemma generate_itemsets_extend (A : Type) (items : list A) (x : A) :
  generate_itemsets (items ++ [x])
  = generate_itemsets items
    ++ [x] :: map (fun subset => subset ++ [x]) (generate_itemsets items).
Proof.
  unfold generate_itemsets at 1. rewrite all_subsets_snoc.
  unfold extend_subsets. rewrite (all_subsets_head items). reflexivity.
Qed.

Lemma all_subsets_cons_In (A : Type) (x : A) (l e : list A) :
  In e (all_subsets (x :: l)) <->
  In e (all_subsets l) \/ exists e', e = x :: e' /\ In e' (all_subsets l).
Proof.
  revert e. induction l as [|y l IH] using rev_ind; intros e.
  - simpl. split.
    + intros [<-|[<-|[]]]; [left; now left | right; exists []; auto].
    + intros [[<-|[]]|(e' & -> & [<-|[]])]; auto.
  - rewrite app_comm_cons, !all_subsets_snoc. unfold extend_subsets.
    rewrite !in_app_iff, !in_map_iff. split.
    + intros [H|(s & <- & Hs)].
      * apply IH in H. destruct H as [H|(e' & -> & H)]; [now left; left|].
        right. exists e'. rewrite in_app_iff. auto.
      * apply IH in Hs. destruct Hs as [Hs|(e' & -> & Hs)].
        -- left. right. now exists s.
        -- right. exists (e' ++ [y]). split; [reflexivity|].
           rewrite in_app_iff, in_map_iff. right. now exists e'.
    + intros [[H|(s & <- & Hs)]|(e' & -> & H)].
      * left. apply IH. now left.
      * right. exists s. split; [reflexivity|]. apply IH. now left.
      * rewrite in_app_iff, in_map_iff in H.
        destruct H as [H|(s & <- & Hs)].
        -- left. apply IH. right. now exists e'.
        -- right. exists (x :: s). split; [reflexivity|].
           apply IH. right. now exists s.
Qed.

Lemma subseq_cons_inv (A : Type) (x : A) (e l : list A) :
  subseq e (x :: l) <->
  subseq e l \/ exists e', e = x :: e' /\ subseq e' l.
Proof.
  split.
  - intros H. inversion H; subst; [now left | right; eauto].
  - intros [H|(e' & -> & H)]; now constructor.
Qed.

Lemma all_subsets_subseq (A : Type) (items e : list A) :
  In e (all_subsets items) <-> subseq e items.
Proof.
  revert e. induction items as [|x items IH]; intros e.
  - simpl. split.
    + intros [<-|[]]. constructor.
    + intros H. inversion H. now left.
  - rewrite all_subsets_cons_In, subseq_cons_inv, IH.
    split; (intros [H|(e' & -> & H)];
            [now left | right; exists e'; split; [reflexivity|now apply IH]]).
Qed.

(** X1. Whatever the items, repeated or not, [generate_itemsets] returns
    2^k - 1 lists for k items. *)
Theorem generate_itemsets_length (A : Type) (items : list A) :
  length (generate_itemsets items) = 2 ^ length items - 1.
Proof.
  pose proof (all_subsets_length items) as H.
  rewrite all_subsets_head in H. simpl in H. lia.
Qed.

Lemma generate_itemsets_In_subseq (A : Type) (items e : list A) :
  In e (generate_itemsets items) <-> e <> [] /\ subseq e items.
Proof.
  rewrite <- all_subsets_subseq. split.
  - intros H. split; [|now apply generate_itemsets_In_all].
    intros ->. revert H. clear.
    induction items as [|x items IH] using rev_ind; [intros []|].
    rewrite generate_itemsets_extend, in_app_iff. simpl.
    rewrite in_map_iff.
    intros [H|[H|(s & E & _)]]; [auto | discriminate|].
    now destruct s.
  - intros [Hne H]. rewrite all_subsets_head in H.
    destruct H as [<-|H]; [congruence | exact H].
Qed.

(** X2. The lists [generate_itemsets] returns are the non-empty
    sub-sequences of its argument: each keeps the order of the items, and
    each non-empty sub-sequence is returned. *)
Theorem generate_itemsets_subsequences (A : Type) (items e : list A) :
  In e (generate_itemsets items) <-> e <> [] /\ subseq e items.
Proof. apply generate_itemsets_In_subseq. Qed.

(** X3. Appending an item [x] to the argument keeps the former result as a
    prefix, and adds [[x]] and then every former subset with [x] at its
    end. *)
Theorem generate_itemsets_append_item (A : Type) (items : list A) (x : A) :
  generate_itemsets (items ++ [x])
  = generate_itemsets items
    ++ [x] :: map (fun subset => subset ++ [x]) (generate_itemsets items).
Proof. apply generate_itemsets_extend. Qed.

(** * Further properties of the frequent-itemset table *)

Lemma value_counts_complete (l : list item) (x : item) :
  In x l -> In (x, occurrences x l) (value_counts l).
Proof.
  intros H. apply (Permutation_in _ (Permutation_sym (value_counts_perm l))).
  apply in_map_iff. exists x. split; [reflexivity | now apply distinct_In].
Qed.

Lemma same_set_occurrence_count (transactions : list (list item))
  (e1 e2 : list item) :
  same_set e1 e2 = true ->
  occurrence_count transactions e1 = occurrence_count transactions e2.
Proof.
  intros H. apply same_set_spec in H. destruct H as [H1 H2].
  apply Nat.le_antisymm; now apply occurrence_count_anti.
Qed.

Lemma occurrence_count_le_length (transactions : list (list item))
  (e : list item) :
  occurrence_count transactions e <= length transactions.
Proof. unfold occurrence_count. apply filter_length_le. Qed.

Lemma occurrences_le_length (transactions : list (list item)) (x : item) :
  (forall t, In t transactions -> NoDup t) ->
  occurrences x (concat transactions) <= length transactions.
Proof.
  unfold occurrences. induction transactions as [|t ts IH]; intros H; simpl.
  - apply Nat.le_refl.
  - rewrite count_occ_app.
    assert (Ht : count_occ string_dec t x <= 1).
    { apply NoDup_count_occ. apply H. now left. }
    assert (Hts : count_occ string_dec (concat ts) x <= length ts).
    { apply IH. intros t' Ht'. apply H. now right. }
    change (S (length ts)) with (1 + length ts).
    now apply Nat.add_le_mono.
Qed.

Section TableFacts.

Context {F : Arith}.
Variable transactions : list (list item).
Variable min_support : num.

Lemma str_row_frequent (x : item) (r : freq_row) :
  In r (all_frequent_items transactions min_support) ->
  Itemsets r = Str x ->
  In x (freq_tokens transactions min_support).
Proof.
  intros Hr E. apply all_frequent_items_In in Hr.
  destruct Hr as [(ic & Hic & ->)|(e & _ & -> & _)]; [|discriminate].
  simpl in E. injection E as <-. unfold freq_tokens. now apply in_map.
Qed.

(** X4. The table has a record for the single item [x], with count [c] and
    support [s], exactly when [x] occurs in the transactions, [c] is the
    number of its occurrences in all of them, [c] passes the test of line 22
    and [s] is [(c / N) * 100]. *)
Theorem single_item_records (x : item) (c : nat) (s : num) :
  In {| Itemsets := Str x; Frequency := c; Support := s |}
     (all_frequent_items transactions min_support)
  <-> In x (concat transactions)
      /\ c = occurrences x (concat transactions)
      /\ fle (min_count min_support (length transactions))
             (of_int (Z.of_nat c)) = true
      /\ s = support_of c (length transactions).
Proof.
  rewrite all_frequent_items_In. split.
  - intros [(ic & Hic & E)|(e & _ & E & _)]; [|discriminate].
    injection E as -> -> ->. unfold frequent_counts in Hic.
    apply filter_In in Hic. destruct Hic as [Hic Ht]. destruct ic as [y n].
    apply value_counts_In in Hic. simpl in *. tauto.
  - intros (Hx & -> & Ht & ->). left.
    exists (x, occurrences x (concat transactions)). split; [|reflexivity].
    unfold frequent_counts. apply filter_In.
    split; [now apply value_counts_complete | exact Ht].
Qed.

(** X5. The record of an itemset of two items or more: its items are
    distinct, its count is the number of transactions that contain them all,
    which is at most N, its support is [(count / N) * 100] and passes the
    test of line 40, and each of its items has a record of its own. *)
Theorem tuple_record (e : list item) (c : nat) (s : num) :
  In {| Itemsets := Tup e; Frequency := c; Support := s |}
     (all_frequent_items transactions min_support) ->
  2 <= length e /\ NoDup e
  /\ c = occurrence_count transactions e
  /\ c <= length transactions
  /\ s = support_of c (length transactions)
  /\ fle min_support s = true
  /\ forall x, In x e ->
       exists r, In r (all_frequent_items transactions min_support)
                 /\ Itemsets r = Str x.
Proof.
  intros H. apply all_frequent_items_In in H.
  destruct H as [(ic & _ & E)|(e' & He & E & Hs)]; [discriminate|].
  injection E as -> -> ->. simpl in Hs.
  destruct (valid_itemsets_In _ _ _ He) as (Hlen & Hnd & Hinc).
  repeat split; auto using occurrence_count_le_length.
  intros x Hx. apply Hinc in Hx. unfold freq_tokens in Hx.
  apply in_map_iff in Hx. destruct Hx as (ic & <- & Hic).
  exists {| Itemsets := Str (fst ic); Frequency := snd ic;
            Support := support_of (snd ic) (length transactions) |}.
  split; [|reflexivity].
  apply all_frequent_items_In. left. exists ic. split; [exact Hic|reflexivity].
Qed.

(** X6. Every set [S] of two or more distinct items that each have a record,
    and whose support [(count / N) * 100] passes the test of line 40, has a
    record: a tuple with the items of [S], in some order, and the number of
    transactions that contain [S] as its count. *)
Theorem frequent_set_recorded (S : list item) :
  NoDup S ->
  2 <= length S ->
  (forall x, In x S ->
     exists r, In r (all_frequent_items transactions min_support)
               /\ Itemsets r = Str x) ->
  fle min_support
      (support_of (occurrence_count transactions S) (length transactions))
  = true ->
  exists e,
    same_set S e = true
    /\ In {| Itemsets := Tup e;
             Frequency := occurrence_count transactions S;
             Support := support_of (occurrence_count transactions S)
                                   (length transactions) |}
          (all_frequent_items transactions min_support).
Proof.
  intros Hnd Hlen Hitems Hs.
  assert (Hinc : incl S (freq_tokens transactions min_support)).
  { intros x Hx. destruct (Hitems x Hx) as (r & Hr & E).
    exact (@str_row_frequent x r Hr E). }
  assert (Hne : S <> []) by (destruct S; [simpl in Hlen; lia | discriminate]).
  pose proof (@generate_itemsets_count _
                (freq_tokens_NoDup transactions min_support) S Hne Hinc)
    as Hc.
  destruct (filter (same_set S)
              (generate_itemsets (freq_tokens transactions min_support)))
    as [|e rest] eqn:Ef; [discriminate|].
  assert (He : In e (filter (same_set S)
                (generate_itemsets (freq_tokens transactions min_support))))
    by (rewrite Ef; now left).
  apply filter_In in He. destruct He as [He Hse].
  exists e. split; [exact Hse|].
  pose proof (@same_set_occurrence_count transactions S e Hse) as Hcount.
  apply all_frequent_items_In. right. exists e. split; [|split].
  - unfold valid_itemsets. apply filter_In. split; [exact He|].
    apply Nat.ltb_lt. apply same_set_spec in Hse. destruct Hse as [Hse _].
    pose proof (NoDup_incl_length Hnd Hse). lia.
  - unfold tuple_row. now rewrite <- Hcount.
  - simpl. exact Hs.
Qed.

(** X7. When no transaction lists an item twice, the count of every record
    is at most the number of transactions. *)
Theorem frequency_at_most_transactions (r : freq_row) :
  (forall t, In t transactions -> NoDup t) ->
  In r (all_frequent_items transactions min_support) ->
  Frequency r <= length transactions.
Proof.
  intros Hnd Hr. apply all_frequent_items_In in Hr.
  destruct Hr as [(ic & Hic & ->)|(e & _ & -> & _)]; simpl.
  - unfold frequent_counts in Hic. apply filter_In in Hic.
    destruct Hic as [Hic _]. destruct ic as [x c].
    apply value_counts_In in Hic. destruct Hic as [_ ->]. simpl.
    now apply occurrences_le_length.
  - apply occurrence_count_le_length.
Qed.

End TableFacts.

(** * Further properties of the rule table *)

Lemma filter_length_mono (A : Type) (p q : A -> bool) (l : list A) :
  (forall x, In x l -> p x = true -> q x = true) ->
  incl (filter p l) (filter q l)
  /\ length (filter p l) <= length (filter q l).
Proof.
  intros H. split.
  - intros x Hx. apply filter_In in Hx. apply filter_In.
    split; [tauto | apply H; tauto].
  - induction l as [|a l IH]; simpl; [apply Nat.le_refl|].
    assert (IH' : length (filter p l) <= length (filter q l)).
    { apply IH. intros x Hx. apply H. now right. }
    destruct (p a) eqn:Pa.
    + rewrite (H a (or_introl eq_refl) Pa). simpl. now apply le_n_S.
    + destruct (q a); simpl; [now apply Nat.le_le_succ_r | exact IH'].
Qed.

Lemma dict_get_In (K V : Type) (eqb : K -> K -> bool) (d : list (K * V))
  (k : K) (v : V) :
  (forall a b, eqb a b = true <-> a = b) ->
  NoDup (map fst d) ->
  dict_get eqb d k = Some v <-> In (k, v) d.
Proof.
  intros Heq. induction d as [|[k' v'] d IH]; simpl; intros Hnd.
  - split; [discriminate | contradiction].
  - apply NoDup_cons_iff in Hnd. destruct Hnd as [Hk Hnd].
    destruct (eqb k' k) eqn:E.
    + apply Heq in E. subst k'. split.
      * intros [= ->]. now left.
      * intros [[= ->]|Hin]; [reflexivity|].
        exfalso. apply Hk. now apply (in_map fst) in Hin.
    + rewrite (IH Hnd). split; [now right|].
      intros [[= -> _]|Hin]; [|exact Hin].
      assert (Hrefl : eqb k k = true) by now apply Heq.
      congruence.
Qed.

Section RuleFacts.

Context {F : Arith}.
Variable transactions : list (list item).
Variables min_support : num.

Lemma selected_spec (a c : itemset * num) :
  selected a c = true <->
  incl (pyset (fst c)) (pyset (fst a)) /\ fst a <> fst c.
Proof.
  unfold selected.
  now rewrite andb_true_iff, issubset_incl, negb_true_iff, itemset_eqb_neq.
Qed.

Lemma selected_pairs_keys_NoDup (m : list (itemset * num)) :
  NoDup (map fst m) ->
  NoDup (map (fun p => (fst (fst p), fst (snd p))) (selected_pairs m)).
Proof.
  intros H. unfold selected_pairs. apply NoDup_map_filter.
  rewrite (map_list_prod fst fst). now apply NoDup_list_prod.
Qed.

(** X8. Every row of the rule table passes the test of line 56 and the test
    of line 49: its confidence is at least [min_confidence], its antecedent
    and consequent differ, and every element of [set(consequent)] is an
    element of [set(antecedent)]. *)
Theorem rule_row_tests (min_confidence : num) (rules : list rule_row)
  (table : list freq_row) (row : rule_row) :
  brute_force_association transactions min_support min_confidence
  = inr (rules, table) ->
  In row rules ->
  fle min_confidence (Confidence row) = true
  /\ fst (Rules row) <> snd (Rules row)
  /\ incl (pyset (snd (Rules row))) (pyset (fst (Rules row))).
Proof.
  intros H Hrow.
  destruct (@brute_force_association_rule F _ _ _ _ _ _ H Hrow)
    as (ra & rc & _ & _ & Hsel & -> & Hc).
  apply selected_spec in Hsel. simpl in *. tauto.
Qed.

(** X9. The rule table is complete: two records of the frequent-itemset
    table whose itemsets differ, with every element of [set(consequent)] in
    [set(antecedent)], and whose confidence is at least [min_confidence],
    give a row of the rule table. *)
Theorem rule_table_complete (min_confidence : num) (rules : list rule_row)
  (table : list freq_row) (ra rc : freq_row) :
  brute_force_association transactions min_support min_confidence
  = inr (rules, table) ->
  In ra table -> In rc table ->
  Itemsets ra <> Itemsets rc ->
  incl (pyset (Itemsets rc)) (pyset (Itemsets ra)) ->
  fle min_confidence (fmul (fdiv (Support ra) (Support rc)) (of_int 100))
  = true ->
  In {| Rules := (Itemsets ra, Itemsets rc);
        Confidence := fmul (fdiv (Support ra) (Support rc)) (of_int 100);
        RuleSupport := Support ra |} rules.
Proof.
  intros H Ha Hc Hne Hinc Hconf.
  pose proof H as Ht. apply brute_force_association_table in Ht.
  rewrite brute_force_association_eq in H. simpl in H. rewrite <- Ht in H.
  destruct (divides_by_zero _); [discriminate|].
  injection H as <-. apply filter_In. split; [|exact Hconf].
  apply in_map_iff. exists (entry_of ra, entry_of rc).
  split; [reflexivity|].
  unfold selected_pairs. apply filter_In. split.
  - apply in_prod_iff. split; now apply in_map.
  - apply selected_spec. simpl. tauto.
Qed.

(** X10. No pair (antecedent, consequent) has two rows in the rule table. *)
Theorem rule_pairs_distinct (min_confidence : num) (rules : list rule_row)
  (table : list freq_row) :
  brute_force_association transactions min_support min_confidence
  = inr (rules, table) ->
  NoDup (map Rules rules).
Proof.
  intros H. rewrite brute_force_association_eq in H. simpl in H.
  destruct (divides_by_zero _); [discriminate|].
  injection H as <- _. apply NoDup_map_filter. rewrite map_map. simpl.
  apply selected_pairs_keys_NoDup. rewrite map_map.
  apply all_frequent_items_keys_NoDup.
Qed.

(** X11. The call raises [ZeroDivisionError] exactly when the
    frequent-itemset table has a record of support zero that line 49 accepts
    as the consequent of another record. *)
Theorem zero_division_iff (min_confidence : num) :
  brute_force_association transactions min_support min_confidence
  = inl ZeroDivisionError
  <-> exists ra rc,
        In ra (all_frequent_items transactions min_support)
        /\ In rc (all_frequent_items transactions min_support)
        /\ Itemsets ra <> Itemsets rc
        /\ incl (pyset (Itemsets rc)) (pyset (Itemsets ra))
        /\ fzero (Support rc) = true.
Proof.
  rewrite brute_force_association_eq. simpl.
  destruct (divides_by_zero _) eqn:E.
  - split; [intros _ | reflexivity].
    unfold divides_by_zero in E. apply existsb_exists in E.
    destruct E as ([a c] & Hp & Hc). apply in_prod_iff in Hp.
    destruct Hp as [Ha Hcin].
    apply in_map_iff in Ha. destruct Ha as (ra & <- & Ha).
    apply in_map_iff in Hcin. destruct Hcin as (rc & <- & Hcin).
    simpl in Hc. apply andb_true_iff in Hc. destruct Hc as [Hsel Hz].
    apply selected_spec in Hsel. simpl in Hsel.
    exists ra, rc. tauto.
  - split; [discriminate|]. intros (ra & rc & Ha & Hc & Hne & Hinc & Hz).
    exfalso. unfold divides_by_zero in E.
    assert (E' : existsb
                   (fun p => selected (fst p) (snd p) && fzero (snd (snd p)))
                   (list_prod
                      (map entry_of
                           (all_frequent_items transactions min_support))
                      (map entry_of
                           (all_frequent_items transactions min_support)))
                 = true).
    { apply existsb_exists. exists (entry_of ra, entry_of rc). split.
      - apply in_prod_iff. split; now apply in_map.
      - simpl. apply andb_true_iff. split; [|exact Hz].
        apply selected_spec. simpl. tauto. }
    congruence.
Qed.

(** X12. [min_confidence] only filters the rule table: the frequent-itemset
    table returned, and whether the call raises, are the same for any two
    values of it. *)
Theorem min_confidence_only_filters (c1 c2 : num) :
  (forall e,
     brute_force_association transactions min_support c1 = inl e
     <-> brute_force_association transactions min_support c2 = inl e)
  /\ (forall rules1 table,
        brute_force_association transactions min_support c1
        = inr (rules1, table) ->
        exists rules2,
          brute_force_association transactions min_support c2
          = inr (rules2, table)).
Proof.
  rewrite !brute_force_association_eq. simpl.
  destruct (divides_by_zero _); split.
  - tauto.
  - discriminate.
  - intros e. split; discriminate.
  - intros rules1 table [= _ <-]. eauto.
Qed.

(** X13. Raising [min_confidence]: every row of the rule table at the
    higher value is a row at the lower value, and the table at the higher
    value is not longer.  The proof uses that [<=] is transitive, which
    holds in binary64. *)
Theorem raising_min_confidence {T : LeTransitive F} (c1 c2 : num)
  (rules1 rules2 : list rule_row) (table1 table2 : list freq_row) :
  fle c1 c2 = true ->
  brute_force_association transactions min_support c1
  = inr (rules1, table1) ->
  brute_force_association transactions min_support c2
  = inr (rules2, table2) ->
  incl rules2 rules1 /\ length rules2 <= length rules1.
Proof.
  intros H12 R1 R2. rewrite brute_force_association_eq in R1, R2.
  simpl in R1, R2. destruct (divides_by_zero _); [discriminate|].
  injection R1 as <- _. injection R2 as <- _.
  apply filter_length_mono. intros r _ Hr.
  eapply fle_trans; [exact H12 | exact Hr].
Qed.

(** X14. [item_support_map] holds, under each itemset of the
    frequent-itemset table, the support of its record, and nothing under
    any other key. *)
Theorem item_support_map_lookup (k : itemset) (s : num) :
  dict_get itemset_eqb
    (item_support_map (all_frequent_items transactions min_support)) k
  = Some s
  <-> exists r, In r (all_frequent_items transactions min_support)
                /\ Itemsets r = k /\ Support r = s.
Proof.
  rewrite item_support_map_eq, dict_get_In.
  - rewrite in_map_iff. unfold entry_of. split.
    + intros (r & [= <- <-] & Hr). eauto.
    + intros (r & Hr & <- & <-). eauto.
  - apply itemset_eqb_eq.
  - rewrite map_map. apply all_frequent_items_keys_NoDup.
Qed.

(** X15. [itemset_occurrences] holds, under each candidate itemset (the
    sub-sequences of two or more of the frequent items), the number of
    transactions that contain all its items, and nothing under any other
    key. *)
Theorem itemset_occurrences_lookup (k : itemset) (c : nat) :
  dict_get itemset_eqb (itemset_occurrences transactions min_support) k
  = Some c
  <-> exists e, k = Tup e
                /\ 2 <= length e
                /\ subseq e (freq_tokens transactions min_support)
                /\ c = occurrence_count transactions e.
Proof.
  rewrite itemset_occurrences_eq, dict_get_In.
  - rewrite in_map_iff. unfold valid_itemsets. split.
    + intros (e & [= <- <-] & He). apply filter_In in He.
      destruct He as [He Hlen]. apply Nat.ltb_lt in Hlen.
      apply generate_itemsets_In_subseq in He.
      exists e. repeat split; [lia | tauto].
    + intros (e & -> & Hlen & Hsub & ->). exists e. split; [reflexivity|].
      apply filter_In. split; [|apply Nat.ltb_lt; lia].
      apply generate_itemsets_In_subseq. split; [|exact Hsub].
      intros ->. simpl in Hlen. lia.
  - apply itemset_eqb_eq.
  - rewrite map_map. simpl. apply NoDup_map_inj.
    + intros x y E. now injection E.
    + apply valid_itemsets_NoDup.
Qed.

(** X16. When the rule loop ends without an error, [association_dict] and
    [support_values] have the same length: the column assignment of line 55
    fits the table. *)
Theorem support_column_fits (st : rule_state) :
  rule_loop (item_support_map (all_frequent_items transactions min_support))
  = inr st ->
  length (fst st) = length (snd st).
Proof.
  intros H. apply rule_loop_lengths in H; [exact H|].
  rewrite item_support_map_eq, map_map.
  apply all_frequent_items_keys_NoDup.
Qed.

End RuleFacts.

(** * Order and edge cases of the frequent-itemset table *)

Lemma insert_by_count_sorted (e : item * nat) (l : list (item * nat)) :
  StronglySorted (fun a b => snd b <= snd a) l ->
  StronglySorted (fun a b => snd b <= snd a) (insert_by_count e l).
Proof.
  induction 1 as [|e' l Hl IH Hall]; simpl.
  - constructor; constructor.
  - destruct (snd e <? snd e') eqn:E.
    + apply Nat.ltb_lt in E. constructor; [exact IH|].
      apply (Permutation_Forall
               (Permutation_sym (insert_by_count_perm e l))).
      constructor; [lia | exact Hall].
    + apply Nat.ltb_ge in E. constructor; [now constructor|].
      constructor; [exact E|].
      apply (Forall_impl _ (P := fun b => snd b <= snd e')); [|exact Hall].
      intros b Hb. lia.
Qed.

Lemma value_counts_sorted (l : list item) :
  StronglySorted (fun a b => snd b <= snd a) (value_counts l).
Proof.
  unfold value_counts.
  induction (map (fun x => (x, occurrences x l)) (distinct l)) as [|e t IH];
    simpl; [constructor | now apply insert_by_count_sorted].
Qed.

Lemma StronglySorted_filter_of (A : Type) (R : A -> A -> Prop)
  (keep : A -> bool) (l : list A) :
  StronglySorted R l -> StronglySorted R (filter keep l).
Proof.
  induction 1 as [|a l Hl IH Hall]; simpl; [constructor|].
  destruct (keep a); [|exact IH]. constructor; [exact IH|].
  apply Forall_forall. intros x Hx. apply filter_In in Hx.
  rewrite Forall_forall in Hall. apply Hall. tauto.
Qed.

Lemma StronglySorted_map_of (A B : Type) (R : B -> B -> Prop) (g : A -> B)
  (l : list A) :
  StronglySorted (fun a b => R (g a) (g b)) l -> StronglySorted R (map g l).
Proof.
  induction 1 as [|a l Hl IH Hall]; simpl; constructor; [exact IH|].
  apply Forall_forall. intros y Hy. apply in_map_iff in Hy.
  destruct Hy as (x & <- & Hx). rewrite Forall_forall in Hall. now apply Hall.
Qed.

Section TableOrder.

Context {F : Arith}.
Variable transactions : list (list item).
Variable min_support : num.

(** X17. The frequent-itemset table lists the single items first, by
    decreasing count, and the itemsets of two items or more after them. *)
Theorem single_items_first_by_count :
  exists singles tuples,
    all_frequent_items transactions min_support = singles ++ tuples
    /\ Forall (fun r => exists x, Itemsets r = Str x) singles
    /\ Forall (fun r => exists e, Itemsets r = Tup e) tuples
    /\ StronglySorted (fun r1 r2 => Frequency r2 <= Frequency r1) singles.
Proof.
  exists (freq_items transactions min_support),
         (filter (fun r => fle min_support (Support r))
                 (itemset_df transactions min_support)).
  split; [reflexivity|]. split; [|split].
  - apply Forall_forall. intros r Hr. unfold freq_items in Hr.
    apply in_map_iff in Hr. destruct Hr as (ic & <- & _). simpl. eauto.
  - apply Forall_forall. intros r Hr. apply filter_In in Hr.
    destruct Hr as [Hr _]. rewrite itemset_df_eq in Hr.
    apply in_map_iff in Hr. destruct Hr as (e & <- & _). simpl. eauto.
  - unfold freq_items, frequent_counts. apply StronglySorted_map_of. simpl.
    apply StronglySorted_filter_of, value_counts_sorted.
Qed.

(** X18. When no item passes the test of line 22, the call returns two
    empty tables. *)
Theorem no_frequent_item_empty_tables (min_confidence : num) :
  (forall x, In x (concat transactions) ->
     fle (min_count min_support (length transactions))
         (of_int (Z.of_nat (occurrences x (concat transactions)))) = false) ->
  brute_force_association transactions min_support min_confidence
  = inr ([], []).
Proof.
  intros H.
  assert (Hfc : frequent_counts transactions min_support = []).
  { unfold frequent_counts. apply filter_none. intros [x c] Hx.
    apply value_counts_In in Hx. destruct Hx as [Hx ->]. simpl.
    now apply H. }
  unfold brute_force_association, all_frequent_items, freq_items, itemset_df,
    itemset_occurrences, valid_itemsets, freq_tokens.
  rewrite Hfc. reflexivity.
Qed.

End TableOrder.

(** X19. In binary64, with a minimum support above zero, no itemset of two
    items or more has a support of zero, so none can be the zero divisor of
    line 50: the call returns both tables whenever no single-item record
    has a support of zero. *)
Theorem binary64_positive_support_returns (transactions : list (list item))
  (min_support min_confidence : float) :
  PrimFloat.ltb 0%float min_support = true ->
  forallb (fun r => negb (@fzero binary64 (Support r)))
          (@freq_items binary64 transactions min_support) = true ->
  exists rules,
    @brute_force_association binary64 transactions min_support
      min_confidence
    = inr (rules, @all_frequent_items binary64 transactions min_support).
Proof.
  intros Hpos Hsingles. rewrite brute_force_association_eq.
  cbv zeta.
  destruct (divides_by_zero _) eqn:E; [exfalso | eexists; reflexivity].
  unfold divides_by_zero in E. apply existsb_exists in E.
  destruct E as ([a c] & Hp & Hc). apply in_prod_iff in Hp.
  destruct Hp as [_ Hcin].
  apply in_map_iff in Hcin. destruct Hcin as (rc & <- & Hrc).
  cbn [fst snd entry_of] in Hc. apply andb_true_iff in Hc.
  destruct Hc as [_ Hz].
  unfold all_frequent_items in Hrc. apply in_app_or in Hrc.
  destruct Hrc as [Hrc|Hrc].
  - rewrite forallb_forall in Hsingles. apply Hsingles in Hrc.
    rewrite Hz in Hrc. discriminate.
  - apply filter_In in Hrc. destruct Hrc as [_ Hle].
    rewrite (@binary64_positive_le_nonzero _ _ Hpos Hle) in Hz. discriminate.
Qed.

(** * The further properties on the four transactions *)

Lemma tuple_record_witness :
  2 <= length ["A"; "B"]%string /\ NoDup ["A"; "B"]%string
  /\ 2 = occurrence_count four_transactions ["A"; "B"]%string
  /\ 2 <= length four_transactions
  /\ 50%float = @support_of binary64 2 (length four_transactions)
  /\ @fle binary64 50%float 50%float = true
  /\ forall x, In x ["A"; "B"]%string ->
       exists r,
         In r (@all_frequent_items binary64 four_transactions 50%float)
         /\ Itemsets r = Str x.
Proof.
  apply (@tuple_record binary64 four_transactions 50%float
           ["A"; "B"]%string 2 50%float).
  vm_compute. tauto.
Defined.

Lemma frequent_set_recorded_witness :
  exists e,
    same_set ["B"; "A"]%string e = true
    /\ In (@Build_freq_row binary64 (Tup e)
             (occurrence_count four_transactions ["B"; "A"]%string)
             (@support_of binary64
                (occurrence_count four_transactions ["B"; "A"]%string)
                (length four_transactions)))
          (@all_frequent_items binary64 four_transactions 50%float).
Proof.
  apply (@frequent_set_recorded binary64 four_transactions 50%float
           ["B"; "A"]%string).
  - repeat constructor; simpl; intuition discriminate.
  - simpl. lia.
  - intros x [<-|[<-|[]]].
    + exists (row64 (Str "B") 3 75%float). vm_compute. tauto.
    + exists (row64 (Str "A") 3 75%float). vm_compute. tauto.
  - vm_compute. reflexivity.
Defined.

Lemma frequency_at_most_transactions_witness :
  @Frequency binary64 (row64 (Str "A") 3 75%float)
  <= length four_transactions.
Proof.
  apply (@frequency_at_most_transactions binary64 four_transactions
           50%float (row64 (Str "A") 3 75%float)).
  - intros t Ht. unfold four_transactions in Ht. simpl in Ht.
    destruct Ht as [<-|[<-|[<-|[<-|[]]]]];
      repeat constructor; simpl; intuition discriminate.
  - vm_compute. tauto.
Defined.

Lemma rule_row_tests_witness :
  @fle binary64 50%float (50 / 75 * 100)%float = true
  /\ Tup ["A"; "B"]%string <> Str "A"
  /\ incl (pyset (Str "A")) (pyset (Tup ["A"; "B"]%string)).
Proof.
  apply (@rule_row_tests binary64 four_transactions 50%float 50%float
           four_rules four_table
           (rule64 (Tup ["A"; "B"]%string) (Str "A")
                   (50 / 75 * 100)%float 50%float)).
  - vm_compute. reflexivity.
  - simpl. auto.
Defined.

Lemma rule_table_complete_witness :
  In (rule64 (Tup ["A"; "B"]%string) (Str "A")
             (PrimFloat.mul (PrimFloat.div 50 75) 100)%float 50%float)
     four_rules.
Proof.
  apply (@rule_table_complete binary64 four_transactions 50%float 50%float
           four_rules four_table
           (row64 (Tup ["A"; "B"]%string) 2 50%float)
           (row64 (Str "A") 3 75%float)).
  - vm_compute. reflexivity.
  - simpl. tauto.
  - simpl. tauto.
  - discriminate.
  - intros x [<-|[]]. now left.
  - vm_compute. reflexivity.
Defined.

Lemma rule_pairs_distinct_witness : NoDup (map (@Rules binary64) four_rules).
Proof.
  apply (@rule_pairs_distinct binary64 four_transactions 50%float 50%float
           four_rules four_table).
  vm_compute. reflexivity.
Defined.

Lemma raising_min_confidence_witness :
  incl [rule64 (Tup ["B"; "C"]%string) (Str "C") 100%float 50%float]
       four_rules
  /\ length [rule64 (Tup ["B"; "C"]%string) (Str "C") 100%float 50%float]
     <= length four_rules.
Proof.
  apply (@raising_min_confidence binary64 four_transactions 50%float
           binary64_LeTransitive 50%float 90%float
           four_rules
           [rule64 (Tup ["B"; "C"]%string) (Str "C") 100%float 50%float]
           four_table four_table).
  - reflexivity.
  - vm_compute. reflexivity.
  - vm_compute. reflexivity.
Defined.

Lemma support_column_fits_witness :
  length (fst (match @rule_loop binary64
                       (item_support_map
                          (@all_frequent_items binary64 four_transactions
                             50%float)) with
               | inr st => st
               | inl _ => ([], [])
               end))
  = length (snd (match @rule_loop binary64
                         (item_support_map
                            (@all_frequent_items binary64 four_transactions
                               50%float)) with
                 | inr st => st
                 | inl _ => ([], [])
                 end)).
Proof.
  apply (@support_column_fits binary64 four_transactions 50%float).
  vm_compute. reflexivity.
Defined.

Lemma no_frequent_item_empty_tables_witness :
  @brute_force_association binary64 four_transactions 150%float 50%float
  = inr ([], []).
Proof.
  apply (@no_frequent_item_empty_tables binary64 four_transactions
           150%float 50%float).
  intros x Hx. unfold four_transactions in Hx. simpl in Hx.
  repeat (destruct Hx as [<-|Hx]; [vm_compute; reflexivity|]).
  contradiction.
Defined.

Lemma binary64_positive_support_returns_witness :
  exists rules,
    @brute_force_association binary64 four_transactions 50%float 50%float
    = inr (rules, @all_frequent_items binary64 four_transactions 50%float).
Proof.
  apply (@binary64_positive_support_returns four_transactions
           50%float 50%float).
  - reflexivity.
  - vm_compute. reflexivity.
Defined.

(** * The order of the input *)

Lemma occurrences_concat_perm (l l' : list (list item)) (x : item) :
  Permutation l l' ->
  occurrences x (concat l) = occurrences x (concat l').
Proof.
  unfold occurrences. induction 1 as [|t l1 l2 H IH|t u l1|l1 l2 l3 H1 IH1 H2 IH2];
    simpl.
  - reflexivity.
  - rewrite !count_occ_app. f_equal. exact IH.
  - rewrite !count_occ_app. apply Nat.add_shuffle3.
  - exact (eq_trans IH1 IH2).
Qed.

Lemma occurrence_count_perm (l l' : list (list item)) (e : list item) :
  Permutation l l' -> occurrence_count l e = occurrence_count l' e.
Proof.
  unfold occurrence_count. induction 1; simpl.
  - reflexivity.
  - destruct (issubset e x); simpl; now rewrite IHPermutation.
  - destruct (issubset e x), (issubset e y); reflexivity.
  - congruence.
Qed.

Lemma issubset_perm (e t t' : list item) :
  Permutation t t' -> issubset e t = issubset e t'.
Proof.
  intros H. apply eq_iff_eq_true. rewrite !issubset_incl.
  split; intros Hinc x Hx; apply Hinc in Hx.
  - now apply (Permutation_in _ H).
  - now apply (Permutation_in _ (Permutation_sym H)).
Qed.

Lemma occurrences_concat_items (l l' : list (list item)) (x : item) :
  Forall2 (@Permutation item) l l' ->
  occurrences x (concat l) = occurrences x (concat l').
Proof.
  unfold occurrences. induction 1 as [|t t' l l' Ht Hl IH]; simpl.
  - reflexivity.
  - rewrite !count_occ_app. f_equal; [|exact IH].
    now apply (Permutation_count_occ string_dec).
Qed.

Lemma occurrence_count_items (l l' : list (list item)) (e : list item) :
  Forall2 (@Permutation item) l l' ->
  occurrence_count l e = occurrence_count l' e.
Proof.
  unfold occurrence_count. induction 1 as [|t t' l l' Ht Hl IH]; simpl.
  - reflexivity.
  - rewrite (issubset_perm e Ht). destruct (issubset e t'); simpl; now rewrite IH.
Qed.

Section SameCounts.

Context {F : Arith}.
Variables l l' : list (list item).
Variable min_support : num.
Hypothesis same_length : length l = length l'.
Hypothesis same_occurrences :
  forall x, occurrences x (concat l) = occurrences x (concat l').
Hypothesis same_occurrence_count :
  forall e, occurrence_count l e = occurrence_count l' e.

Lemma freq_tokens_In (t : list (list item)) (x : item) :
  In x (freq_tokens t min_support)
  <-> In x (concat t)
      /\ fle (min_count min_support (length t))
             (of_int (Z.of_nat (occurrences x (concat t)))) = true.
Proof.
  unfold freq_tokens, frequent_counts. rewrite in_map_iff. split.
  - intros ([y c] & <- & H). apply filter_In in H. destruct H as [H Ht].
    apply value_counts_In in H. destruct H as [H ->]. simpl in *. tauto.
  - intros [Hx Ht]. exists (x, occurrences x (concat t)).
    split; [reflexivity|]. apply filter_In.
    split; [now apply value_counts_complete | exact Ht].
Qed.

Lemma candidate_for_set (t : list (list item)) (S : list item) :
  NoDup S -> 2 <= length S ->
  incl S (freq_tokens t min_support) ->
  exists e, In e (valid_itemsets t min_support) /\ same_set S e = true.
Proof.
  intros Hnd Hlen Hinc.
  assert (Hne : S <> []) by (destruct S; [simpl in Hlen; lia | discriminate]).
  pose proof (@generate_itemsets_count _
                (freq_tokens_NoDup t min_support) S Hne Hinc) as Hc.
  destruct (filter (same_set S)
              (generate_itemsets (freq_tokens t min_support)))
    as [|e rest] eqn:Ef; [discriminate|].
  assert (He : In e (filter (same_set S)
                (generate_itemsets (freq_tokens t min_support))))
    by (rewrite Ef; now left).
  apply filter_In in He. destruct He as [He Hse].
  exists e. split; [|exact Hse].
  unfold valid_itemsets. apply filter_In. split; [exact He|].
  apply Nat.ltb_lt. apply same_set_spec in Hse. destruct Hse as [Hse _].
  pose proof (NoDup_incl_length Hnd Hse). lia.
Qed.

Lemma same_counts_tokens (x : item) :
  In x (freq_tokens l min_support) -> In x (freq_tokens l' min_support).
Proof.
  rewrite !freq_tokens_In. intros [Hx Ht].
  rewrite <- same_length, <- same_occurrences. split; [|exact Ht].
  apply (count_occ_In string_dec).
  change (occurrences x (concat l') > 0). rewrite <- same_occurrences.
  now apply (count_occ_In string_dec).
Qed.

Lemma same_counts_records (r : freq_row) :
  In r (all_frequent_items l min_support) ->
  exists r',
    In r' (all_frequent_items l' min_support)
    /\ same_itemset r r'
    /\ Frequency r' = Frequency r /\ Support r' = Support r.
Proof.
  intros Hr. apply all_frequent_items_In in Hr.
  destruct Hr as [(ic & Hic & ->)|(e & He & -> & Hs)].
  - destruct ic as [x c].
    assert (Hx : In x (freq_tokens l min_support))
      by (unfold freq_tokens; now apply (in_map fst) in Hic).
    unfold frequent_counts in Hic. apply filter_In in Hic.
    destruct Hic as [Hic _]. apply value_counts_In in Hic.
    destruct Hic as [_ ->].
    apply same_counts_tokens in Hx. apply freq_tokens_In in Hx.
    destruct Hx as [Hx Ht]. simpl.
    exists {| Itemsets := Str x;
              Frequency := occurrences x (concat l');
              Support := support_of (occurrences x (concat l')) (length l') |}.
    split; [|split; [|split]].
    + apply all_frequent_items_In. left.
      exists (x, occurrences x (concat l')). split; [|reflexivity].
      unfold frequent_counts. apply filter_In.
      split; [now apply value_counts_complete | exact Ht].
    + unfold same_itemset. simpl. apply same_set_refl.
    + simpl. now rewrite same_occurrences.
    + simpl. now rewrite same_occurrences, same_length.
  - destruct (valid_itemsets_In _ _ _ He) as (Hlen & Hnd & Hinc).
    destruct (@candidate_for_set l' e Hnd Hlen) as (e' & He' & Hse).
    { intros x Hx. apply same_counts_tokens. now apply Hinc. }
    assert (Hc : occurrence_count l' e' = occurrence_count l e).
    { rewrite <- (@same_set_occurrence_count l' e e' Hse).
      now rewrite same_occurrence_count. }
    exists (tuple_row l' e'). split; [|split; [|split]].
    + apply all_frequent_items_In. right. exists e'.
      split; [exact He'|]. split; [reflexivity|].
      simpl in *. now rewrite Hc, <- same_length.
    + unfold same_itemset. simpl. exact Hse.
    + simpl. exact Hc.
    + simpl. now rewrite Hc, same_length.
Qed.

End SameCounts.

(** X20. The order of the transactions does not change the records of the
    frequent-itemset table: each record has, after any reordering of the
    transactions, a record with the same set of items, the same count and
    the same support. *)
Theorem transaction_order_irrelevant {F : Arith}
  (l l' : list (list item)) (min_support : num) (r : freq_row) :
  Permutation l l' ->
  In r (all_frequent_items l min_support) ->
  exists r',
    In r' (all_frequent_items l' min_support)
    /\ same_itemset r r'
    /\ Frequency r' = Frequency r /\ Support r' = Support r.
Proof.
  intros H. apply same_counts_records.
  - now apply Permutation_length.
  - intros x. now apply occurrences_concat_perm.
  - intros e. now apply occurrence_count_perm.
Qed.

(** X21. Nor does the order of the items inside the transactions. *)
Theorem item_order_irrelevant {F : Arith}
  (l l' : list (list item)) (min_support : num) (r : freq_row) :
  Forall2 (@Permutation item) l l' ->
  In r (all_frequent_items l min_support) ->
  exists r',
    In r' (all_frequent_items l' min_support)
    /\ same_itemset r r'
    /\ Frequency r' = Frequency r /\ Support r' = Support r.
Proof.
  intros H. apply same_counts_records.
  - exact (Forall2_length H).
  - intros x. now apply occurrences_concat_items.
  - intros e. now apply occurrence_count_items.
Qed.

Lemma transaction_order_irrelevant_witness :
  exists r',
    In r' (@all_frequent_items binary64
             [["A"; "B"; "C"]; ["A"; "B"]; ["A"]; ["B"; "C"]]%string
             50%float)
    /\ same_itemset (row64 (Tup ["A"; "B"]%string) 2 50%float) r'
    /\ Frequency r' = 2 /\ Support r' = 50%float.
Proof.
  apply (@transaction_order_irrelevant binary64 four_transactions
           [["A"; "B"; "C"]; ["A"; "B"]; ["A"]; ["B"; "C"]]%string
           50%float (row64 (Tup ["A"; "B"]%string) 2 50%float)).
  - apply perm_swap.
  - vm_compute. tauto.
Defined.

Lemma item_order_irrelevant_witness :
  exists r',
    In r' (@all_frequent_items binary64
             [["B"; "A"]; ["A"; "B"; "C"]; ["A"]; ["B"; "C"]]%string
             50%float)
    /\ same_itemset (row64 (Tup ["A"; "B"]%string) 2 50%float) r'
    /\ Frequency r' = 2 /\ Support r' = 50%float.
Proof.
  apply (@item_order_irrelevant binary64 four_transactions
           [["B"; "A"]; ["A"; "B"; "C"]; ["A"]; ["B"; "C"]]%string
           50%float (row64 (Tup ["A"; "B"]%string) 2 50%float)).
  - repeat constructor.
  - vm_compute. tauto.
Defined.
